(** * Fire alarm dashboard: capture loop, annotation loop and session store

    A shallow embedding of [FireDetection/app.py] and [FireDetection/db.py].

    - Python integers are [Z]; clock readings ([time.time()],
      [datetime.now()], SQLite's [CURRENT_TIMESTAMP]) are inputs of type [Z].
    - A [queue.Queue] is the list of its items, oldest first, together with
      the [maxsize] it was built with.
    - The SQLite file is a record of tables; a table is the list of its rows
      in insertion order.
    - Exceptions are values of [exn]; code that can raise returns [res], and
      the request handlers and the annotation loop run in a state and
      exception monad over the module-level globals of [app.py]. *)

From Stdlib Require Import String ZArith List Bool Lia.
Import ListNotations.
Open Scope Z_scope.

(** ** Python values and exceptions *)

Inductive exn : Type :=
| QueueEmpty      (* queue.Empty *)
| IndexError      (* list index out of range *)
| DatabaseError   (* sqlite3.Error raised by a call into db.py *)
| RuntimeError.   (* anything else raised by cv2 or the detector *)

Inductive res (A : Type) : Type :=
| Val (a : A)
| Exn (e : exn).
Arguments Val {A} a.
Arguments Exn {A} e.

(** [l[i]] on a Python list: negative indices count from the end. *)
Definition py_index {A : Type} (l : list A) (i : Z) : res A :=
  let n := Z.of_nat (length l) in
  let j := if i <? 0 then i + n else i in
  if (0 <=? j) && (j <? n)
  then match nth_error l (Z.to_nat j) with
       | Some x => Val x
       | None => Exn IndexError
       end
  else Exn IndexError.

(** [x or 0] where [x] is an integer or [None]. *)
Definition py_or0 (x : option Z) : Z :=
  match x with
  | Some v => if v =? 0 then 0 else v
  | None => 0
  end.

(** ** [queue.Queue] *)

Module Queue.
Section WithItem.
Context {A : Type}.

Definition qsize (q : list A) : Z := Z.of_nat (length q).

Definition full (maxsize : Z) (q : list A) : bool :=
  (0 <? maxsize) && (maxsize <=? qsize q).

(** [get_nowait], and [get(timeout=...)] when nothing arrives in time. *)
Definition get (q : list A) : res (A * list A) :=
  match q with
  | [] => Exn QueueEmpty
  | x :: rest => Val (x, rest)
  end.

(** Blocking [put]: [None] is a producer parked on a full queue. *)
Definition put (maxsize : Z) (q : list A) (x : A) : option (list A) :=
  if full maxsize q then None else Some (q ++ [x]).

(** What is left after consumers on other threads took [k] items. *)
Definition drained (k : nat) (q : list A) : list A := skipn k q.
End WithItem.
End Queue.

(** The last [n] items of a list. *)
Definition lastn {A : Type} (n : nat) (l : list A) : list A :=
  skipn (length l - n) l.

(** ** db.py *)

Module DB.

Record SessionRow : Type := mkSession {
  id : Z;
  start_time : Z;
  end_time : option Z;
  total_fire_detections : Z;
  total_smoke_detections : Z;
  status : string
}.

Record LogRow : Type := mkLog {
  log_id : Z;
  session_id : Z;
  timestamp : Z;
  fire_count : Z;
  smoke_count : Z;
  alert_triggered : bool
}.

(** [sessions_seq] and [logs_seq] are the [sqlite_sequence] entries that
    AUTOINCREMENT keeps for the two tables. *)
Record t : Type := mk {
  detection_sessions : list SessionRow;
  sessions_seq : Z;
  detection_logs : list LogRow;
  logs_seq : Z
}.

(** [init_db] on a fresh file. *)
Definition init_db : t := mk [] 0 [] 0.

(** AUTOINCREMENT: one more than the largest rowid the table ever held. *)
Definition next_rowid (seq : Z) (ids : list Z) : Z :=
  fold_right Z.max seq ids + 1.

(** SQL [SUM]: NULL over no rows.  (What SQLite does when the 64-bit
    accumulator overflows is in [sum_int64] below.) *)
Definition sql_sum (col : list Z) : option Z :=
  match col with
  | [] => None
  | _ => Some (fold_right Z.add 0 col)
  end.

Definition start_session (now : Z) (d : t) : Z * t :=
  let session_id := next_rowid (sessions_seq d) (map id (detection_sessions d)) in
  (session_id,
   mk (detection_sessions d ++ [mkSession session_id now None 0 0 "active"%string])
      session_id
      (detection_logs d)
      (logs_seq d)).

Definition logs_of (sid : Z) (d : t) : list LogRow :=
  filter (fun r => session_id r =? sid) (detection_logs d).

Definition close_row (sid now total_fire total_smoke : Z) (r : SessionRow)
  : SessionRow :=
  if id r =? sid
  then mkSession (id r) (start_time r) (Some now) total_fire total_smoke
                 "completed"%string
  else r.

Definition end_session (sid : Z) (now : Z) (d : t) : t :=
  let rows := logs_of sid d in
  let total_fire := py_or0 (sql_sum (map fire_count rows)) in
  let total_smoke := py_or0 (sql_sum (map smoke_count rows)) in
  mk (map (close_row sid now total_fire total_smoke) (detection_sessions d))
     (sessions_seq d)
     (detection_logs d)
     (logs_seq d).

(** The log row's [timestamp] column takes its default, [now]. *)
Definition add_detection_log
  (sid fire smoke : Z) (alert : bool) (now : Z) (d : t) : t :=
  let rowid := next_rowid (logs_seq d) (map log_id (detection_logs d)) in
  mk (detection_sessions d)
     (sessions_seq d)
     (detection_logs d ++ [mkLog rowid sid now fire smoke alert])
     rowid.

(** [SELECT ... FROM detection_sessions WHERE id = ?] *)
Definition session (sid : Z) (d : t) : option SessionRow :=
  find (fun r => id r =? sid) (detection_sessions d).

(** A run of calls into the module, as the application issues them. *)
Inductive call : Type :=
| StartSession (now : Z)
| EndSession (sid now : Z)
| AddDetectionLog (sid fire smoke : Z) (alert : bool) (now : Z).

Definition exec (c : call) (d : t) : t :=
  match c with
  | StartSession now => snd (start_session now d)
  | EndSession sid now => end_session sid now d
  | AddDetectionLog sid fire smoke alert now =>
      add_detection_log sid fire smoke alert now d
  end.

Definition exec_all (cs : list call) (d : t) : t :=
  fold_left (fun acc c => exec c acc) cs d.

(** SQLite keeps INTEGER values, and the accumulator of [SUM], in 64 bits. *)
Definition int64_min : Z := - 2 ^ 63.
Definition int64_max : Z := 2 ^ 63 - 1.

(** [SUM] as SQLite accumulates it, row after row: the statement fails with
    "integer overflow" once a partial sum has left the 64-bit range. *)
Fixpoint sum_int64 (acc : Z) (col : list Z) : res Z :=
  match col with
  | [] => Val acc
  | v :: rest =>
      let acc' := acc + v in
      if (int64_min <=? acc') && (acc' <=? int64_max)
      then sum_int64 acc' rest
      else Exn DatabaseError
  end.

Definition sql_sum_int64 (col : list Z) : res (option Z) :=
  match col with
  | [] => Val None
  | _ =>
      match sum_int64 0 col with
      | Val v => Val (Some v)
      | Exn e => Exn e
      end
  end.

(** [end_session] with that failure: when the SELECT raises, the function is
    left before the UPDATE and nothing is written.  (In the routes this is
    one of the failures that [db_raises] stands for.) *)
Definition end_session_call (sid : Z) (now : Z) (d : t) : res t :=
  let rows := logs_of sid d in
  match sql_sum_int64 (map fire_count rows),
        sql_sum_int64 (map smoke_count rows) with
  | Val fire_sum, Val smoke_sum =>
      let total_fire := py_or0 fire_sum in
      let total_smoke := py_or0 smoke_sum in
      Val (mk (map (close_row sid now total_fire total_smoke)
                   (detection_sessions d))
              (sessions_seq d)
              (detection_logs d)
              (logs_seq d))
  | Exn e, _ => Exn e
  | _, Exn e => Exn e
  end.

End DB.

(** ** app.py: frames, detections and overlays *)

Definition Color : Type := (Z * Z * Z)%type.
Definition Point : Type := (Z * Z)%type.

(** The text [f"{classes[cls]} {conf:.2f}"]: the class name and the score it
    is formatted from. *)
Record Label : Type := mkLabel {
  label_class : string;
  label_conf : Z
}.

(** Calls into cv2 that write on a frame. *)
Inductive DrawOp : Type :=
| Rectangle (pt1 pt2 : Point) (color : Color) (thickness : Z)
| PutText (text : Label) (org : Point) (color : Color) (thickness : Z).

(** A frame is the image read from the camera, the number of its array
    elements, and what has been drawn on it since. *)
Record Frame : Type := mkFrame {
  image : nat;
  size : Z;
  overlay : list DrawOp
}.

(** One entry of [results.boxes]: [int(box.cls[0])], [map(int, box.xyxy[0])]
    and [box.conf[0]]. *)
Record Box : Type := mkBox {
  cls : Z;
  xyxy : Z * Z * Z * Z;
  conf : Z
}.

Record Snapshot : Type := mkSnapshot {
  fire : Z;
  smoke : Z;
  timestamp : Z
}.

Definition classes : list string :=
  ["fire"; "light"; "no-fire"; "smoke"]%string.

Definition colors : list Color :=
  [(0, 0, 255); (0, 255, 255); (0, 255, 0); (128, 128, 128)].

Definition white : Color := (255, 255, 255).

Definition frame_queue_maxsize : Z := 2.
Definition detection_queue_maxsize : Z := 10.

(** The locals of one pass over [results.boxes]. *)
Record Annotated : Type := mkAnnotated {
  fire_count : Z;
  smoke_count : Z;
  frame : Frame
}.

Definition draw (ops : list DrawOp) (f : Frame) : Frame :=
  mkFrame (image f) (size f) (overlay f ++ ops).

Section Annotation.
(** [cv2.getTextSize(label, cv2.FONT_HERSHEY_DUPLEX, 0.8, 2)[0]] *)
Variable getTextSize : Label -> Z * Z.

Definition box_ops (b : Box) (name : string) (color : Color) : list DrawOp :=
  let '(x1, y1, x2, y2) := xyxy b in
  let label := mkLabel name (conf b) in
  let label_size := getTextSize label in
  [ Rectangle (x1, y1) (x2, y2) color 3;
    Rectangle (x1, y1 - snd label_size - 10) (x1 + fst label_size, y1) color (-1);
    PutText label (x1, y1 - 10) white 2 ].

(** The body of [for box in results.boxes]. *)
Definition annotate_box (a : Annotated) (b : Box) : res Annotated :=
  let c := cls b in
  if (c =? 2) || (c =? 1) then Val a
  else
    let fire_count' := if c =? 0 then fire_count a + 1 else fire_count a in
    let smoke_count' :=
      if c =? 0 then smoke_count a
      else if c =? 3 then smoke_count a + 1 else smoke_count a in
    match py_index classes c with
    | Exn e => Exn e
    | Val name =>
        match py_index colors c with
        | Exn e => Exn e
        | Val color =>
            Val (mkAnnotated fire_count' smoke_count'
                   (draw (box_ops b name color) (frame a)))
        end
    end.

Fixpoint annotate_boxes (a : Annotated) (boxes : list Box) : res Annotated :=
  match boxes with
  | [] => Val a
  | b :: rest =>
      match annotate_box a b with
      | Exn e => Exn e
      | Val a' => annotate_boxes a' rest
      end
  end.

Definition annotate (f : Frame) (boxes : list Box) : res Annotated :=
  annotate_boxes (mkAnnotated 0 0 f) boxes.
End Annotation.

Definition ignored (b : Box) : bool := (cls b =? 2) || (cls b =? 1).

(** [fire_count > 0 or smoke_count > 0] *)
Definition alert_of (fire_count smoke_count : Z) : bool :=
  (0 <? fire_count) || (0 <? smoke_count).

(** ** app.py: module-level state *)

Record App : Type := mkApp {
  capturing : bool;
  stop_event : bool;
  current_detections : Snapshot;
  current_session_id : option Z;
  frame_queue : list Frame;
  detection_queue : list Snapshot;
  db : DB.t
}.

Definition set_capturing (v : bool) (s : App) : App :=
  mkApp v (stop_event s) (current_detections s) (current_session_id s)
        (frame_queue s) (detection_queue s) (db s).
Definition set_current_detections (v : Snapshot) (s : App) : App :=
  mkApp (capturing s) (stop_event s) v (current_session_id s)
        (frame_queue s) (detection_queue s) (db s).
Definition set_current_session_id (v : option Z) (s : App) : App :=
  mkApp (capturing s) (stop_event s) (current_detections s) v
        (frame_queue s) (detection_queue s) (db s).
Definition set_frame_queue (v : list Frame) (s : App) : App :=
  mkApp (capturing s) (stop_event s) (current_detections s)
        (current_session_id s) v (detection_queue s) (db s).
Definition set_detection_queue (v : list Snapshot) (s : App) : App :=
  mkApp (capturing s) (stop_event s) (current_detections s)
        (current_session_id s) (frame_queue s) v (db s).
Definition set_db (v : DB.t) (s : App) : App :=
  mkApp (capturing s) (stop_event s) (current_detections s)
        (current_session_id s) (frame_queue s) (detection_queue s) v.

(** The module as loaded: [init_db] has run, the snapshot carries the load
    time. *)
Definition initial (now : Z) (d : DB.t) : App :=
  mkApp false false (mkSnapshot 0 0 now) None [] [] d.

(** Truth value of [current_session_id]: [None] and [0] are false. *)
Definition truthy (sid : option Z) : bool :=
  match sid with
  | Some v => negb (v =? 0)
  | None => false
  end.

(** ** State and exception monad over the globals *)

Definition M (A : Type) : Type := App -> res A * App.

Definition ret {A : Type} (a : A) : M A := fun s => (Val a, s).

Definition bind {A B : Type} (m : M A) (k : A -> M B) : M B :=
  fun s =>
    match m s with
    | (Val a, s') => k a s'
    | (Exn e, s') => (Exn e, s')
    end.

Definition gets {A : Type} (f : App -> A) : M A := fun s => (Val (f s), s).
Definition modify (f : App -> App) : M unit := fun s => (Val tt, f s).
Definition lift {A : Type} (r : res A) : M A := fun s => (r, s).

(** [try: m  except <matching>: h] *)
Definition try_except {A : Type} (m : M A) (handles : exn -> bool) (h : exn -> M A)
  : M A :=
  fun s =>
    match m s with
    | (Val a, s') => (Val a, s')
    | (Exn e, s') => if handles e then h e s' else (Exn e, s')
    end.

Notation "x <- m ;; k" := (bind m (fun x => k))
  (at level 61, m at next level, right associativity).
Notation "m ;;; k" := (bind m (fun _ => k))
  (at level 61, right associativity).

(** A call into db.py: every function there opens the file, runs its
    statements and commits; [raises] says whether sqlite3 raises on the way,
    in which case nothing was committed. *)
Definition db_call {A : Type} (raises : bool) (f : DB.t -> A * DB.t) : M A :=
  fun s =>
    if raises then (Exn DatabaseError, s)
    else let '(a, d) := f (db s) in (Val a, set_db d s).

(** What the world answers during one request or one loop iteration:
    [time.time()], the database's clock ([datetime.now()] or
    CURRENT_TIMESTAMP) and whether the call into db.py raises. *)
Record Env : Type := mkEnv {
  now : Z;
  db_now : Z;
  db_raises : bool
}.

(** ** app.py: [generate] *)

Section Generate.
Variable getTextSize : Label -> Z * Z.

(** [db.add_detection_log(current_session_id, ...)] under
    [if current_session_id:]. *)
Definition log_if_session (env : Env) (fire_count smoke_count : Z) : M unit :=
  sid <- gets current_session_id ;;
  match sid with
  | Some v =>
      if truthy sid
      then db_call (db_raises env)
             (fun d => (tt, DB.add_detection_log v fire_count smoke_count
                              (alert_of fire_count smoke_count) (db_now env) d))
      else ret tt
  | None => ret tt
  end.

(** [detection_queue.put(current_detections.copy())] under
    [if not detection_queue.full():]. *)
Definition publish : M unit :=
  dq <- gets detection_queue ;;
  if negb (Queue.full detection_queue_maxsize dq)
  then
    snap <- gets current_detections ;;
    match Queue.put detection_queue_maxsize dq snap with
    | Some dq' => modify (set_detection_queue dq')
    | None => ret tt   (* not reached: [full] was just false *)
    end
  else ret tt.

(** The [try] block of one iteration; [detected] is what
    [model(frame, conf=0.4, iou=0.45)[0].boxes] holds, or what the call
    raises.  [None] is [continue], [Some f] is the frame that is encoded
    and yielded. *)
Definition generate_body (env : Env) (detected : res (list Box))
  : M (option Frame) :=
  fq <- gets frame_queue ;;
  got <- lift (Queue.get fq) ;;
  modify (set_frame_queue (snd got)) ;;;
  if size (fst got) =? 0 then ret None
  else
    boxes <- lift detected ;;
    a <- lift (annotate getTextSize (fst got) boxes) ;;
    cur <- gets current_detections ;;
    (if negb (fire_count a =? fire cur) || negb (smoke_count a =? smoke cur)
     then
       modify (set_current_detections
                 (mkSnapshot (fire_count a) (smoke_count a) (now env))) ;;;
       log_if_session env (fire_count a) (smoke_count a) ;;;
       publish
     else ret tt) ;;;
    ret (Some (frame a)).

(** One turn of [while True]: both [except] clauses end in [continue]. *)
Definition generate_iteration (env : Env) (detected : res (list Box))
  : M (option Frame) :=
  c <- gets capturing ;;
  if negb c then ret None
  else
    try_except (generate_body env detected)
      (fun _ => true)
      (fun e =>
         match e with
         | QueueEmpty => ret None
         | _ => ret None   (* print(f"Error in generate: {e}") *)
         end).

(** The generator driven through a finite run of iterations: the frames it
    yields, or the exception that ends the response. *)
Fixpoint generate (run : list (Env * res (list Box))) : M (list Frame) :=
  match run with
  | [] => ret []
  | (env, detected) :: rest =>
      y <- generate_iteration env detected ;;
      ys <- generate rest ;;
      ret (match y with Some f => f :: ys | None => ys end)
  end.
End Generate.

(** ** app.py: routes *)

Record StartResponse : Type := mkStartResponse {
  resp_status : string;
  resp_session_id : Z
}.

(** [while not detection_queue.empty(): detection_queue.get_nowait()]: one
    item leaves per turn until none is left. *)
Fixpoint clear_queue {A : Type} (q : list A) : list A :=
  match q with
  | [] => []
  | _ :: rest => clear_queue rest
  end.

Definition start (env : Env) : M StartResponse :=
  modify (set_capturing true) ;;;
  sid <- db_call (db_raises env) (DB.start_session (db_now env)) ;;
  modify (set_current_session_id (Some sid)) ;;;
  modify (set_current_detections (mkSnapshot 0 0 (now env))) ;;;
  dq <- gets detection_queue ;;
  modify (set_detection_queue (clear_queue dq)) ;;;
  ret (mkStartResponse "ok" sid).

Definition stop (env : Env) : M string :=
  modify (set_capturing false) ;;;
  sid <- gets current_session_id ;;
  match sid with
  | Some v =>
      if truthy sid
      then db_call (db_raises env) (fun d => (tt, DB.end_session v (db_now env) d)) ;;;
           modify (set_current_session_id None)
      else ret tt
  | None => ret tt
  end ;;;
  modify (set_current_detections (mkSnapshot 0 0 (now env))) ;;;
  ret "OK"%string.

Definition detection_status : M Snapshot := gets current_detections.

(** The reporting routes ([/api/statistics], [/api/sessions],
    [/api/session/<id>], [/api/reports/date-range]): one read-only call into
    db.py whose result goes to [jsonify]. *)
Definition report {A : Type} (query : DB.t -> A) (env : Env) : M A :=
  db_call (db_raises env) (fun d => (query d, d)).

(** ** app.py: [capture_frames] *)

(** [if frame_queue.full(): try get_nowait() except Empty: pass] and then
    [frame_queue.put(frame)], with [k1] and [k2] items taken by consumers
    after the test and after the eviction. *)
Definition insert_frame_among (k1 k2 : nat) (q : list Frame) (f : Frame)
  : option (list Frame) :=
  let was_full := Queue.full frame_queue_maxsize q in
  let q1 := Queue.drained k1 q in
  let q2 := if was_full
            then match Queue.get q1 with
                 | Val (_, rest) => rest
                 | Exn _ => q1
                 end
            else q1 in
  Queue.put frame_queue_maxsize (Queue.drained k2 q2) f.

(** The producer alone. *)
Definition insert_frame (q : list Frame) (f : Frame) : option (list Frame) :=
  insert_frame_among 0 0 q f.

Fixpoint insert_frames (q : list Frame) (fs : list Frame) : option (list Frame) :=
  match fs with
  | [] => Some q
  | f :: rest =>
      match insert_frame q f with
      | Some q' => insert_frames q' rest
      | None => None
      end
  end.

Inductive ReadResult : Type :=
| ReadFailed              (* ret is False *)
| ReadFrame (f : Frame)   (* ret is True *)
| ReadRaised.             (* cv2 raised *)

(** What the camera answers during one loop iteration. *)
Record Camera : Type := mkCamera {
  isOpened : bool;
  read : ReadResult
}.

Inductive CaptureEvent : Type :=
| Open                 (* cv2.VideoCapture(RTSP_URL, cv2.CAP_FFMPEG) *)
| Read                 (* cap.read() *)
| Release              (* cap.release() *)
| Sleep (ms : Z).      (* time.sleep *)

(** Where the thread is: at the head of the outer loop, at the head of the
    inner loop with its failure counter, parked in [put], or past the outer
    loop. *)
Inductive CapturePc : Type :=
| Outer
| Inner (consecutive_failures : Z)
| Parked
| Returned.

Definition failure_threshold : Z := 10.

Definition capture_step (cam : Camera) (pc : CapturePc) (s : App)
  : CapturePc * App * list CaptureEvent :=
  match pc with
  | Outer =>
      if stop_event s then (Returned, s, [])
      else if negb (capturing s) then (Outer, s, [Sleep 100])
      else if negb (isOpened cam) then (Outer, s, [Open; Sleep 2000])
      else (Inner 0, s, [Open])
  | Inner consecutive_failures =>
      if negb (negb (stop_event s) && capturing s) then (Outer, s, [Release])
      else
        match read cam with
        | ReadRaised => (Outer, s, [Read; Sleep 2000])
        | ReadFailed =>
            let consecutive_failures := consecutive_failures + 1 in
            if failure_threshold <? consecutive_failures
            then (Outer, s, [Read; Release])
            else (Inner consecutive_failures, s, [Read; Sleep 100])
        | ReadFrame f =>
            match insert_frame (frame_queue s) f with
            | Some q => (Inner 0, set_frame_queue q s, [Read; Sleep 30])
            | None => (Parked, s, [Read])
            end
        end
  | Parked => (Parked, s, [])
  | Returned => (Returned, s, [])
  end.

Fixpoint capture_run (cams : list Camera) (pc : CapturePc) (s : App)
  : CapturePc * App * list CaptureEvent :=
  match cams with
  | [] => (pc, s, [])
  | cam :: rest =>
      let '(pc', s', ev) := capture_step cam pc s in
      let '(pc'', s'', ev') := capture_run rest pc' s' in
      (pc'', s'', ev ++ ev')
  end.

(** ** The application as a whole *)

(** What can happen next: a request on one of the routes, one iteration of a
    [/video] response, one iteration of the capture thread. *)
Inductive Action : Type :=
| DoStart (env : Env)
| DoStop (env : Env)
| DoGenerate (env : Env) (detected : res (list Box))
| DoCapture (cam : Camera).

Definition act (getTextSize : Label -> Z * Z) (a : Action) (st : CapturePc * App)
  : CapturePc * App :=
  let '(pc, s) := st in
  match a with
  | DoStart env => (pc, snd (start env s))
  | DoStop env => (pc, snd (stop env s))
  | DoGenerate env detected =>
      (pc, snd (generate_iteration getTextSize env detected s))
  | DoCapture cam => fst (capture_step cam pc s)
  end.

Definition acts (getTextSize : Label -> Z * Z) (l : list Action)
  (st : CapturePc * App) : CapturePc * App :=
  fold_left (fun acc a => act getTextSize a acc) l st.

(** ** app.py: [event_stream] *)

(** What a subscriber of [/detections] receives: [data: {...}] with a
    snapshot, or the [: heartbeat] comment. *)
Inductive SseEvent : Type :=
| Data (detection : Snapshot)
| Heartbeat.

(** How one turn of the loop ends: [continue] after the sleep, a [yield],
    or [break]. *)
Inductive Turn : Type :=
| Idle
| Emit (e : SseEvent)
| Break.

Definition event_stream_iteration : M Turn :=
  c <- gets capturing ;;
  if negb c then ret Idle
  else
    try_except
      (dq <- gets detection_queue ;;
       got <- lift (Queue.get dq) ;;
       modify (set_detection_queue (snd got)) ;;;
       ret (Emit (Data (fst got))))
      (fun _ => true)
      (fun e =>
         match e with
         | QueueEmpty => ret (Emit Heartbeat)
         | _ => ret Break
         end).

(** The generator driven through [turns] turns of its loop: what it
    yields. *)
Fixpoint event_stream (turns : nat) : M (list SseEvent) :=
  match turns with
  | O => ret []
  | S n =>
      t <- event_stream_iteration ;;
      match t with
      | Idle => event_stream n
      | Emit e => es <- event_stream n ;; ret (e :: es)
      | Break => ret []
      end
  end.

(** ** The application with its subscribers *)

(** An [Action], or one turn of a [/detections] response. *)
Inductive Activity : Type :=
| Core (a : Action)
| Subscribe.

Definition perform (getTextSize : Label -> Z * Z) (x : Activity)
  (st : CapturePc * App) : CapturePc * App :=
  match x with
  | Core a => act getTextSize a st
  | Subscribe => (fst st, snd (event_stream_iteration (snd st)))
  end.

Definition performs (getTextSize : Label -> Z * Z) (l : list Activity)
  (st : CapturePc * App) : CapturePc * App :=
  fold_left (fun acc x => perform getTextSize x acc) l st.

(** What the capture thread does to the camera during an activity. *)
Definition camera_events (x : Activity) (st : CapturePc * App)
  : list CaptureEvent :=
  match x with
  | Core (DoCapture cam) => snd (capture_step cam (fst st) (snd st))
  | _ => []
  end.

Fixpoint camera_trace (getTextSize : Label -> Z * Z) (l : list Activity)
  (st : CapturePc * App) : list CaptureEvent :=
  match l with
  | [] => []
  | x :: rest =>
      camera_events x st
      ++ camera_trace getTextSize rest (perform getTextSize x st)
  end.

(** ** db.py: the [detections] table and [delete_old_records] *)

Module Store.

Record DetectionRow : Type := mkDetection {
  detection_id : Z;
  detection_timestamp : Z;
  detection_type : string;
  count : Z;
  confidence : option Z;
  image_path : option string
}.

(** The database file: the two tables of [DB.t] and [detections]. *)
Record t : Type := mk {
  base : DB.t;
  detections : list DetectionRow;
  detections_seq : Z
}.

Definition init_db : t := mk DB.init_db [] 0.

(** The row's [timestamp] column takes its default, [now]. *)
Definition add_detection
  (detection_type : string) (count : Z) (confidence : option Z)
  (image_path : option string) (now : Z) (d : t) : Z * t :=
  let detection_id :=
    DB.next_rowid (detections_seq d) (map detection_id (detections d)) in
  (detection_id,
   mk (base d)
      (detections d
       ++ [mkDetection detection_id now detection_type count confidence
             image_path])
      detection_id).

(** [session_id IN (SELECT id FROM detection_sessions WHERE start_time < ...)] *)
Definition in_old_session (cutoff : Z) (sessions : list DB.SessionRow)
  (l : DB.LogRow) : bool :=
  existsb (fun r => (DB.start_time r <? cutoff) && (DB.id r =? DB.session_id l))
          sessions.

(** [cutoff1], [cutoff2] and [cutoff3] are the values that
    [datetime('now', '-' || days || ' days')] takes in the three DELETE
    statements; the result is [cursor.rowcount] after the last one. *)
Definition delete_old_records (cutoff1 cutoff2 cutoff3 : Z) (d : t) : Z * t :=
  let sessions := DB.detection_sessions (base d) in
  let logs :=
    filter (fun l => negb (in_old_session cutoff1 sessions l))
           (DB.detection_logs (base d)) in
  let sessions' :=
    filter (fun r => negb (DB.start_time r <? cutoff2)) sessions in
  let deleted :=
    filter (fun r => detection_timestamp r <? cutoff3) (detections d) in
  let detections' :=
    filter (fun r => negb (detection_timestamp r <? cutoff3)) (detections d) in
  (Z.of_nat (length deleted),
   mk (DB.mk sessions' (DB.sessions_seq (base d)) logs (DB.logs_seq (base d)))
      detections'
      (detections_seq d)).

(** A run of calls into the module. *)
Inductive call : Type :=
| OnSessions (c : DB.call)
| AddDetection (detection_type : string) (count : Z) (confidence : option Z)
    (image_path : option string) (now : Z)
| DeleteOldRecords (cutoff1 cutoff2 cutoff3 : Z).

Definition exec (c : call) (d : t) : t :=
  match c with
  | OnSessions c => mk (DB.exec c (base d)) (detections d) (detections_seq d)
  | AddDetection ty n conf path now =>
      snd (add_detection ty n conf path now d)
  | DeleteOldRecords c1 c2 c3 => snd (delete_old_records c1 c2 c3 d)
  end.

Definition exec_all (cs : list call) (d : t) : t :=
  fold_left (fun acc c => exec c acc) cs d.

End Store.

(** ** Vocabulary of the properties *)

(** Sum of a column. *)
Definition total (col : list Z) : Z := fold_right Z.add 0 col.

Definition count_cls (c : Z) (boxes : list Box) : Z :=
  Z.of_nat (length (filter (fun b => cls b =? c) boxes)).

Definition class_name (c : Z) : string :=
  if c =? 0 then "fire"%string else "smoke"%string.

Definition class_color (c : Z) : Color :=
  if c =? 0 then (0, 0, 255) else (128, 128, 128).

(** The boxes and labels drawn for the detections that are not ignored, in
    the order the detector returned them. *)
Definition labelled_boxes (getTextSize : Label -> Z * Z) (boxes : list Box)
  : list DrawOp :=
  flat_map
    (fun b =>
       if ignored b then []
       else box_ops getTextSize b (class_name (cls b)) (class_color (cls b)))
    boxes.

Ltac unfold_monad :=
  unfold bind, ret, gets, modify, lift, try_except, db_call in *.

(** [fire_count != current_detections["fire"] or
    smoke_count != current_detections["smoke"]] *)
Definition changed (a : Annotated) (s : App) : bool :=
  negb (fire_count a =? fire (current_detections s))
  || negb (smoke_count a =? smoke (current_detections s)).

(** A log row whose alert flag agrees with its counts. *)
Definition alert_matches (r : DB.LogRow) : Prop :=
  DB.alert_triggered r = true <-> (DB.fire_count r > 0 \/ DB.smoke_count r > 0).

Definition is_stop (a : Action) : bool :=
  match a with
  | DoStop _ => true
  | _ => false
  end.

(** Connections the capture thread holds at a point of its loop. *)
Definition held (pc : CapturePc) : Z :=
  match pc with
  | Inner _ | Parked => 1
  | Outer | Returned => 0
  end.

Definition opens (ev : list CaptureEvent) : Z :=
  Z.of_nat (length (filter (fun e => match e with Open => true | _ => false end) ev)).

Definition releases (ev : list CaptureEvent) : Z :=
  Z.of_nat (length (filter (fun e => match e with Release => true | _ => false end) ev)).

(** The failure counter at the head of the inner loop. *)
Definition counter_in_range (pc : CapturePc) : Prop :=
  match pc with
  | Inner n => 0 <= n <= 10
  | _ => True
  end.

Definition is_session_request (x : Activity) : bool :=
  match x with
  | Core (DoStart _) | Core (DoStop _) => true
  | _ => false
  end.

(** Every completed session carries the sums of its log rows. *)
Definition closed_rows_consistent (d : DB.t) : Prop :=
  Forall
    (fun row =>
       DB.status row = "completed"%string ->
       DB.total_fire_detections row
       = total (map DB.fire_count (DB.logs_of (DB.id row) d))
       /\ DB.total_smoke_detections row
          = total (map DB.smoke_count (DB.logs_of (DB.id row) d)))
    (DB.detection_sessions d).

(** Every log row names a session that has a row. *)
Definition references_sessions (d : DB.t) : Prop :=
  Forall
    (fun l => In (DB.session_id l) (map DB.id (DB.detection_sessions d)))
    (DB.detection_logs d).

(** The current session, when there is one, has a row and is active. *)
Definition current_session_open (s : App) : Prop :=
  forall v,
    current_session_id s = Some v ->
    In v (map DB.id (DB.detection_sessions (db s)))
    /\ Forall (fun row => DB.id row = v -> DB.status row = "active"%string)
         (DB.detection_sessions (db s)).

Definition consistent (s : App) : Prop :=
  closed_rows_consistent (db s)
  /\ references_sessions (db s)
  /\ current_session_open s.

(** No two rows of a table share their primary key. *)
Definition keys_unique (d : Store.t) : Prop :=
  NoDup (map DB.id (DB.detection_sessions (Store.base d)))
  /\ NoDup (map DB.log_id (DB.detection_logs (Store.base d)))
  /\ NoDup (map Store.detection_id (Store.detections d)).

(** The counts stored in [detection_logs] are not negative and their sums
    fit in SQLite's integers, so that no [SUM] over them overflows. *)
Definition counts_fit (d : DB.t) : Prop :=
  Forall (fun l => 0 <= DB.fire_count l /\ 0 <= DB.smoke_count l)
         (DB.detection_logs d)
  /\ total (map DB.fire_count (DB.detection_logs d)) <= DB.int64_max
  /\ total (map DB.smoke_count (DB.detection_logs d)) <= DB.int64_max.

(** ** Sample data *)

Definition sample_text_size : Label -> Z * Z := fun _ => (120, 18).

(** A 1920 x 1080 BGR image. *)
Definition camera_frame (n : nat) : Frame := mkFrame n 6220800 [].

Definition sample_box (c : Z) : Box := mkBox c (10, 20, 110, 220) 87.

Definition pending_events (n : nat) : list Snapshot :=
  map (fun k => mkSnapshot (Z.of_nat k) 0 (Z.of_nat k)) (seq 1 n).

(** The application while capturing, two frames waiting, last snapshot at
    zero. *)
Definition watching (sid : option Z) (events : list Snapshot) (d : DB.t) : App :=
  mkApp true false (mkSnapshot 0 0 1000) sid
        [camera_frame 1; camera_frame 2] events d.

Definition one_session : DB.t := snd (DB.start_session 900 DB.init_db).

(** * Properties *)

(** ** The frame buffer *)

Lemma lastn_short {A : Type} (n : nat) (l : list A) :
  (length l <= n)%nat -> lastn n l = l.
Proof.
  intros H. unfold lastn.
  replace (length l - n)%nat with 0%nat by lia. reflexivity.
Qed.

Lemma lastn_cons {A : Type} (n : nat) (x : A) (l : list A) :
  (n <= length l)%nat -> lastn n (x :: l) = lastn n l.
Proof.
  intros H. unfold lastn. cbn [length].
  replace (S (length l) - n)%nat with (S (length l - n)) by lia.
  reflexivity.
Qed.

Lemma insert_frame_keeps_two (q : list Frame) (f : Frame) :
  (length q <= 2)%nat -> insert_frame q f = Some (lastn 2 (q ++ [f])).
Proof.
  intros H.
  destruct q as [|a [|b [|c q]]]; cbn in H; try lia; reflexivity.
Qed.

Lemma lastn_length {A : Type} (n : nat) (l : list A) :
  (length (lastn n l) <= n)%nat.
Proof.
  unfold lastn. rewrite length_skipn. lia.
Qed.

Lemma lastn_step {A : Type} (q : list A) (f : A) (rest : list A) :
  (length q <= 2)%nat ->
  lastn 2 (lastn 2 (q ++ [f]) ++ rest) = lastn 2 (q ++ f :: rest).
Proof.
  intros H.
  destruct q as [|a [|b [|c q]]]; cbn in H; try lia; try reflexivity.
  change (lastn 2 ([a; b] ++ [f])) with [b; f].
  cbn [app]. symmetry. apply lastn_cons. cbn [length]. lia.
Qed.

Lemma insert_frames_keeps_two (fs q : list Frame) :
  (length q <= 2)%nat -> insert_frames q fs = Some (lastn 2 (q ++ fs)).
Proof.
  revert q. induction fs as [|f rest IH]; intros q H.
  - cbn [insert_frames]. rewrite app_nil_r, lastn_short by exact H. reflexivity.
  - cbn [insert_frames]. rewrite insert_frame_keeps_two by exact H.
    rewrite IH by apply lastn_length.
    rewrite lastn_step by exact H. reflexivity.
Qed.

Lemma lastn_app_long {A : Type} (n : nat) (q l : list A) :
  (n <= length l)%nat -> lastn n (q ++ l) = lastn n l.
Proof.
  intros H. induction q as [|x q IH]; [reflexivity|].
  cbn [app]. rewrite lastn_cons; [exact IH|].
  rewrite length_app. lia.
Qed.

Lemma insert_frame_among_some (k1 k2 : nat) (q : list Frame) (f : Frame) :
  (length q <= 2)%nat -> exists q', insert_frame_among k1 k2 q f = Some q'.
Proof.
  intros H. unfold insert_frame_among, Queue.put.
  set (q2 := if Queue.full frame_queue_maxsize q then _ else _).
  assert (Hq2 : (length q2 <= 1)%nat).
  { subst q2. unfold Queue.drained.
    assert (Hk : (length (skipn k1 q) <= length q)%nat)
      by (rewrite length_skipn; lia).
    destruct (Queue.full frame_queue_maxsize q) eqn:E.
    - destruct (skipn k1 q) as [|x rest]; cbn in *; lia.
    - unfold Queue.full, Queue.qsize, frame_queue_maxsize in E.
      cbn [Z.ltb Z.compare andb] in E. apply Z.leb_gt in E. lia. }
  assert (Hfull : Queue.full frame_queue_maxsize (Queue.drained k2 q2) = false).
  { unfold Queue.full, Queue.qsize, Queue.drained, frame_queue_maxsize.
    rewrite length_skipn. apply andb_false_intro2. apply Z.leb_gt. lia. }
  rewrite Hfull. eauto.
Qed.

(** C2. The frame buffer holds at most two frames and drops the oldest:
    starting from any contents the buffer can have, the producer's inserts
    all complete (no [put] parks the thread) and leave exactly the two most
    recent frames; once two or more frames were inserted these are the last
    two inserted.  A full buffer gives up its oldest frame to the new one,
    and the insert completes however many frames consumers take in
    between. *)
Theorem frame_buffer_drop_oldest (q fs : list Frame) :
  (length q <= 2)%nat ->
  insert_frames q fs = Some (lastn 2 (q ++ fs))
  /\ ((2 <= length fs)%nat -> insert_frames q fs = Some (lastn 2 fs))
  /\ (forall a b c, q = [a; b] -> insert_frame q c = Some [b; c])
  /\ (forall k1 k2 f, insert_frame_among k1 k2 q f <> None).
Proof.
  intros H. repeat split.
  - apply insert_frames_keeps_two, H.
  - intros Hfs. rewrite insert_frames_keeps_two by exact H.
    rewrite lastn_app_long by exact Hfs. reflexivity.
  - intros a b c ->. reflexivity.
  - intros k1 k2 f.
    destruct (insert_frame_among_some k1 k2 q f H) as [q' ->]. discriminate.
Qed.

Lemma frame_buffer_drop_oldest_witness :
  let f := fun n => mkFrame n 6220800 [] in
  insert_frames [f 1%nat; f 2%nat] [f 3%nat; f 4%nat; f 5%nat]
  = Some [f 4%nat; f 5%nat].
Proof.
  intros f.
  exact (proj1 (proj2 (frame_buffer_drop_oldest
                         [f 1%nat; f 2%nat] [f 3%nat; f 4%nat; f 5%nat]
                         (Nat.le_refl 2)))
           (le_S _ _ (Nat.le_refl 2))).
Defined.

(** ** The session store *)

Lemma py_or0_sql_sum (col : list Z) : py_or0 (DB.sql_sum col) = total col.
Proof.
  destruct col as [|x col]; [reflexivity|].
  unfold DB.sql_sum, py_or0, total.
  destruct (Z.eqb_spec (fold_right Z.add 0 (x :: col)) 0) as [E|E]; congruence.
Qed.

Lemma next_rowid_above (seq : Z) (ids : list Z) :
  seq < DB.next_rowid seq ids /\ Forall (fun i => i < DB.next_rowid seq ids) ids.
Proof.
  unfold DB.next_rowid. induction ids as [|i ids [IH1 IH2]]; cbn [fold_right].
  - split; [lia | constructor].
  - split; [lia|]. constructor; [lia|].
    eapply Forall_impl; [|exact IH2]. cbn. intros; lia.
Qed.

Lemma find_session_fresh (sid : Z) (rows : list DB.SessionRow) :
  Forall (fun i => i < sid) (map DB.id rows) ->
  find (fun r => DB.id r =? sid) rows = None.
Proof.
  induction rows as [|r rows IH]; intros H; [reflexivity|].
  inversion H as [|? ? Hr Hrows]; subst. cbn [find].
  destruct (Z.eqb_spec (DB.id r) sid); [lia | auto].
Qed.

Lemma find_app_none {A : Type} (p : A -> bool) (l1 l2 : list A) :
  find p l1 = None -> find p (l1 ++ l2) = find p l2.
Proof.
  induction l1 as [|x l1 IH]; intros H; [reflexivity|].
  cbn [find app] in *. destruct (p x); [discriminate | auto].
Qed.

Lemma find_app_some {A : Type} (p : A -> bool) (l1 l2 : list A) (x : A) :
  find p l1 = Some x -> find p (l1 ++ l2) = Some x.
Proof.
  induction l1 as [|y l1 IH]; intros H; [discriminate|].
  cbn [find app] in *. destruct (p y); auto.
Qed.

Lemma close_row_id (sid now tf ts : Z) (r : DB.SessionRow) :
  DB.id (DB.close_row sid now tf ts r) = DB.id r.
Proof. unfold DB.close_row. destruct (DB.id r =? sid); reflexivity. Qed.

Lemma close_row_start_time (sid now tf ts : Z) (r : DB.SessionRow) :
  DB.start_time (DB.close_row sid now tf ts r) = DB.start_time r.
Proof. unfold DB.close_row. destruct (DB.id r =? sid); reflexivity. Qed.

Lemma find_close_row (sid sid' now tf ts : Z) (rows : list DB.SessionRow) :
  find (fun r => DB.id r =? sid) (map (DB.close_row sid' now tf ts) rows)
  = option_map (DB.close_row sid' now tf ts)
      (find (fun r => DB.id r =? sid) rows).
Proof.
  induction rows as [|r rows IH]; [reflexivity|].
  cbn [map find]. rewrite close_row_id.
  destruct (DB.id r =? sid); [reflexivity | exact IH].
Qed.

(** The session created by [start_session] is the row its id selects. *)
Lemma session_after_start (now : Z) (d : DB.t) :
  let '(sid, d') := DB.start_session now d in
  DB.session sid d' = Some (DB.mkSession sid now None 0 0 "active")
  /\ DB.session sid d = None.
Proof.
  cbn. unfold DB.session. cbn [DB.detection_sessions].
  assert (Hnone : find (fun r => DB.id r =?
             DB.next_rowid (DB.sessions_seq d) (map DB.id (DB.detection_sessions d)))
            (DB.detection_sessions d) = None)
    by (apply find_session_fresh, next_rowid_above).
  split; [|exact Hnone].
  rewrite find_app_none by exact Hnone.
  cbn [find DB.id]. rewrite Z.eqb_refl. reflexivity.
Qed.

(** Later calls keep a session's row, its id and its start time. *)
Lemma exec_keeps_session (c : DB.call) (sid t0 : Z) (d : DB.t) :
  (exists r, DB.session sid d = Some r /\ DB.start_time r = t0) ->
  exists r, DB.session sid (DB.exec c d) = Some r /\ DB.start_time r = t0.
Proof.
  intros [r [Hr Ht]]. unfold DB.session in *.
  destruct c as [now | sid' now | sid' f s a now]; cbn.
  - exists r. split; [apply find_app_some, Hr | exact Ht].
  - rewrite find_close_row, Hr. cbn [option_map].
    eexists; split; [reflexivity|]. rewrite close_row_start_time. exact Ht.
  - exists r. auto.
Qed.

Lemma exec_all_keeps_session (cs : list DB.call) (sid t0 : Z) (d : DB.t) :
  (exists r, DB.session sid d = Some r /\ DB.start_time r = t0) ->
  exists r, DB.session sid (DB.exec_all cs d) = Some r /\ DB.start_time r = t0.
Proof.
  revert d. induction cs as [|c cs IH]; intros d H; [exact H|].
  cbn [DB.exec_all fold_left]. apply IH, exec_keeps_session, H.
Qed.

Lemma total_nonneg (col : list Z) :
  Forall (fun v => 0 <= v) col -> 0 <= total col.
Proof.
  induction 1 as [|v col Hv _ IH]; cbn [total fold_right]; [lia|].
  unfold total in IH. lia.
Qed.

Lemma sum_int64_fits (col : list Z) (acc : Z) :
  0 <= acc ->
  Forall (fun v => 0 <= v) col ->
  acc + total col <= DB.int64_max ->
  DB.sum_int64 acc col = Val (acc + total col).
Proof.
  intros Hacc Hcol. revert acc Hacc.
  induction Hcol as [|v col Hv Hcol IH]; intros acc Hacc Hmax.
  - cbn. rewrite Z.add_0_r. reflexivity.
  - pose proof (total_nonneg col Hcol) as Hrest.
    change (total (v :: col)) with (v + total col) in *.
    assert (Hmin : DB.int64_min < 0) by reflexivity.
    cbn [DB.sum_int64].
    destruct (Z.leb_spec DB.int64_min (acc + v)); [|lia].
    destruct (Z.leb_spec (acc + v) DB.int64_max); [|lia].
    cbn [andb]. rewrite IH by lia. f_equal. lia.
Qed.

Lemma sql_sum_int64_fits (col : list Z) :
  Forall (fun v => 0 <= v) col ->
  total col <= DB.int64_max ->
  DB.sql_sum_int64 col = Val (DB.sql_sum col).
Proof.
  intros Hcol Hmax. destruct col as [|v col]; [reflexivity|].
  unfold DB.sql_sum_int64, DB.sql_sum.
  rewrite sum_int64_fits by (assumption || lia). reflexivity.
Qed.

Lemma total_filter_le {A : Type} (f : A -> Z) (p : A -> bool) (l : list A) :
  Forall (fun x => 0 <= f x) l ->
  Forall (fun v => 0 <= v) (map f (filter p l))
  /\ total (map f (filter p l)) <= total (map f l).
Proof.
  induction 1 as [|x l Hx Hl [IH1 IH2]]; [split; [constructor | cbn; lia]|].
  cbn [filter map]. change (total (f x :: map f l)) with (f x + total (map f l)).
  destruct (p x); cbn [map].
  - change (total (f x :: map f (filter p l)))
      with (f x + total (map f (filter p l))).
    split; [constructor; assumption | lia].
  - split; [exact IH1 | lia].
Qed.

(** When the counts fit, the SELECT of [end_session] does not overflow and
    the function does what its two statements say. *)
Lemma end_session_call_fits (sid now : Z) (d : DB.t) :
  counts_fit d ->
  DB.end_session_call sid now d = Val (DB.end_session sid now d).
Proof.
  intros (Hpos & Hfire & Hsmoke).
  unfold DB.end_session_call, DB.end_session, DB.logs_of.
  destruct (total_filter_le DB.fire_count
              (fun r => DB.session_id r =? sid) (DB.detection_logs d))
    as [F1 F2].
  { eapply Forall_impl; [|exact Hpos]. cbn. tauto. }
  destruct (total_filter_le DB.smoke_count
              (fun r => DB.session_id r =? sid) (DB.detection_logs d))
    as [S1 S2].
  { eapply Forall_impl; [|exact Hpos]. cbn. tauto. }
  rewrite !sql_sum_int64_fits by (assumption || lia). reflexivity.
Qed.

Lemma sum_int64_raises (col : list Z) (acc : Z) (e : exn) :
  DB.sum_int64 acc col = Exn e -> e = DatabaseError.
Proof.
  revert acc. induction col as [|v col IH]; intros acc H; [discriminate|].
  cbn [DB.sum_int64] in H.
  destruct ((DB.int64_min <=? acc + v) && (acc + v <=? DB.int64_max));
    [eapply IH; exact H | congruence].
Qed.

Lemma sum_int64_overflows (col : list Z) (acc : Z) :
  0 <= acc <= DB.int64_max ->
  Forall (fun v => 0 <= v) col ->
  DB.int64_max < acc + total col ->
  DB.sum_int64 acc col = Exn DatabaseError.
Proof.
  intros Hacc Hcol. revert acc Hacc.
  induction Hcol as [|v col Hv Hcol IH]; intros acc Hacc Hover.
  - change (total []) with 0 in Hover. lia.
  - change (total (v :: col)) with (v + total col) in Hover.
    cbn [DB.sum_int64].
    destruct (Z.leb_spec (acc + v) DB.int64_max);
      [|rewrite andb_false_r; reflexivity].
    destruct (Z.leb_spec DB.int64_min (acc + v)); [|reflexivity].
    cbn [andb]. apply IH; lia.
Qed.

Lemma sql_sum_int64_overflows (col : list Z) :
  Forall (fun v => 0 <= v) col ->
  DB.int64_max < total col ->
  DB.sql_sum_int64 col = Exn DatabaseError.
Proof.
  intros Hcol Hover.
  assert (Hmax : 0 <= DB.int64_max) by discriminate.
  destruct col as [|v col]; [change (total []) with 0 in Hover; lia|].
  unfold DB.sql_sum_int64.
  rewrite sum_int64_overflows by (assumption || lia). reflexivity.
Qed.

Lemma sql_sum_int64_raises (col : list Z) (e : exn) :
  DB.sql_sum_int64 col = Exn e -> e = DatabaseError.
Proof.
  unfold DB.sql_sum_int64. destruct col as [|v col]; [discriminate|].
  destruct (DB.sum_int64 0 (v :: col)) as [x|e'] eqn:E; [discriminate|].
  intros H. injection H as <-. eapply sum_int64_raises, E.
Qed.

(** C4, as the code has it.  A session is started at clock reading [t0]
    and, after any calls into the store, closed at clock reading [t1].
    When the counts in the log fit SQLite's integers, [end_session] returns
    and the session's row has start_time [t0], end_time [t1] (so end_time
    is at or after start_time exactly when the clock has not gone back
    between the two readings), status 'completed', and totals that are the
    sums of fire_count and smoke_count over its log rows, 0 when it has
    none.  When one of the two sums is beyond SQLite's integers,
    [end_session] raises and writes nothing. *)
Theorem session_closed_totals (d : DB.t) (t0 t1 : Z) (between : list DB.call) :
  let '(sid, d1) := DB.start_session t0 d in
  let d2 := DB.exec_all between d1 in
  (counts_fit d2 ->
   exists d3 r,
     DB.end_session_call sid t1 d2 = Val d3
     /\ DB.session sid d3 = Some r
     /\ DB.start_time r = t0
     /\ DB.end_time r = Some t1
     /\ (DB.start_time r <= t1 <-> t0 <= t1)
     /\ DB.status r = "completed"%string
     /\ DB.total_fire_detections r
        = total (map DB.fire_count (DB.logs_of sid d3))
     /\ DB.total_smoke_detections r
        = total (map DB.smoke_count (DB.logs_of sid d3))
     /\ (DB.logs_of sid d3 = [] ->
         DB.total_fire_detections r = 0 /\ DB.total_smoke_detections r = 0))
  /\ (forall d',
        Forall (fun l => 0 <= DB.fire_count l /\ 0 <= DB.smoke_count l)
               (DB.detection_logs d') ->
        DB.int64_max < total (map DB.fire_count (DB.logs_of sid d'))
        \/ DB.int64_max < total (map DB.smoke_count (DB.logs_of sid d')) ->
        DB.end_session_call sid t1 d' = Exn DatabaseError).
Proof.
  pose proof (session_after_start t0 d) as Hstart.
  destruct (DB.start_session t0 d) as [sid d1]. destruct Hstart as [Hstart _].
  cbv zeta. split.
  - intros Hfit.
    destruct (exec_all_keeps_session between sid t0 d1) as [r [Hr Ht]].
    { eexists; split; [exact Hstart | reflexivity]. }
    set (d2 := DB.exec_all between d1) in *.
    assert (Hid : DB.id r = sid).
    { unfold DB.session in Hr. apply find_some in Hr. destruct Hr as [_ Hr].
      apply Z.eqb_eq in Hr. exact Hr. }
    rewrite (end_session_call_fits sid t1 d2 Hfit).
    eexists. eexists. split; [reflexivity|].
    unfold DB.session, DB.end_session. cbn [DB.detection_sessions].
    rewrite find_close_row. fold (DB.session sid d2). rewrite Hr.
    cbn [option_map]. split; [reflexivity|].
    unfold DB.close_row. rewrite Hid, Z.eqb_refl.
    cbn [DB.start_time DB.end_time DB.status DB.total_fire_detections
         DB.total_smoke_detections].
    rewrite !py_or0_sql_sum, Ht.
    change (DB.logs_of sid (DB.mk _ _ (DB.detection_logs d2) _))
      with (DB.logs_of sid d2).
    repeat (split; [first [reflexivity | tauto]|]).
    intros Hnone. rewrite Hnone. split; reflexivity.
  - intros d2 Hpos Hover.
    unfold DB.end_session_call.
    destruct (total_filter_le DB.fire_count
                (fun r => DB.session_id r =? sid) (DB.detection_logs d2))
      as [F1 _].
    { eapply Forall_impl; [|exact Hpos]. cbn. tauto. }
    destruct (total_filter_le DB.smoke_count
                (fun r => DB.session_id r =? sid) (DB.detection_logs d2))
      as [S1 _].
    { eapply Forall_impl; [|exact Hpos]. cbn. tauto. }
    fold (DB.logs_of sid d2) in F1, S1.
    destruct (DB.sql_sum_int64 (map DB.fire_count (DB.logs_of sid d2)))
      as [x|e] eqn:Ef.
    + destruct Hover as [Hover | Hover].
      * rewrite sql_sum_int64_overflows in Ef by assumption. discriminate.
      * rewrite sql_sum_int64_overflows by assumption. reflexivity.
    + apply sql_sum_int64_raises in Ef. rewrite Ef. reflexivity.
Qed.

Lemma session_closed_totals_witness :
  let between :=
    [ DB.AddDetectionLog 1 2 1 true 110;
      DB.AddDetectionLog 1 0 3 true 120;
      DB.StartSession 130;
      DB.AddDetectionLog 2 5 5 true 140 ] in
  let d2 := DB.exec_all between (snd (DB.start_session 100 DB.init_db)) in
  counts_fit d2
  /\ exists d3 r,
       DB.end_session_call 1 160 d2 = Val d3
       /\ DB.session 1 d3 = Some r
       /\ DB.start_time r = 100
       /\ DB.end_time r = Some 160
       /\ DB.status r = "completed"%string
       /\ DB.total_fire_detections r = 2
       /\ DB.total_smoke_detections r = 4.
Proof.
  intros between d2.
  assert (Hfit : counts_fit d2).
  { unfold counts_fit. cbn.
    split; [repeat constructor; cbn; lia | split; discriminate]. }
  split; [exact Hfit|].
  pose proof (session_closed_totals DB.init_db 100 160 between) as H.
  change (DB.start_session 100 DB.init_db)
    with (1, snd (DB.start_session 100 DB.init_db)) in H.
  cbv beta iota zeta in H. fold d2 in H.
  destruct (proj1 H Hfit)
    as (d3 & r & Hcall & Hr & Hs & He & _ & Hst & Hf & Hm & _).
  exists d3, r. repeat (split; [assumption|]).
  assert (Hd3 : d3 = DB.end_session 1 160 d2).
  { rewrite (end_session_call_fits 1 160 d2 Hfit) in Hcall.
    injection Hcall as <-. reflexivity. }
  split; [rewrite Hf | rewrite Hm]; rewrite Hd3; reflexivity.
Defined.

(** C4 as stated fails: the clock reads 200 when the session starts and 100
    when it is closed (the wall clock was set back in between); the session
    is closed and its end_time is before its start_time. *)
Lemma session_closed_after_clock_set_back :
  let d1 := snd (DB.start_session 200 DB.init_db) in
  DB.end_session_call 1 100 d1 = Val (DB.end_session 1 100 d1)
  /\ DB.session 1 (DB.end_session 1 100 d1)
     = Some (DB.mkSession 1 200 (Some 100) 0 0 "completed")
  /\ ~ 200 <= 100.
Proof.
  cbv zeta. split; [reflexivity|]. split; [reflexivity | lia].
Qed.

(** ** The annotation stage *)

Section AnnotationFacts.
Variable getTextSize : Label -> Z * Z.

Lemma draw_nil (f : Frame) : draw [] f = f.
Proof. destruct f. unfold draw. cbn. rewrite app_nil_r. reflexivity. Qed.

Lemma draw_draw (ops1 ops2 : list DrawOp) (f : Frame) :
  draw ops2 (draw ops1 f) = draw (ops1 ++ ops2) f.
Proof. unfold draw. cbn. rewrite app_assoc. reflexivity. Qed.

Lemma annotate_box_ignored (a : Annotated) (b : Box) :
  ignored b = true -> annotate_box getTextSize a b = Val a.
Proof. unfold ignored, annotate_box. intros ->. reflexivity. Qed.

Lemma annotate_box_fire (a : Annotated) (b : Box) :
  cls b = 0 ->
  annotate_box getTextSize a b
  = Val (mkAnnotated (fire_count a + 1) (smoke_count a)
           (draw (box_ops getTextSize b "fire" (0, 0, 255)) (frame a))).
Proof. unfold annotate_box. intros ->. reflexivity. Qed.

Lemma annotate_box_smoke (a : Annotated) (b : Box) :
  cls b = 3 ->
  annotate_box getTextSize a b
  = Val (mkAnnotated (fire_count a) (smoke_count a + 1)
           (draw (box_ops getTextSize b "smoke" (128, 128, 128)) (frame a))).
Proof. unfold annotate_box. intros ->. reflexivity. Qed.

Lemma annotate_boxes_skip_ignored (boxes : list Box) (a : Annotated) :
  annotate_boxes getTextSize a (filter (fun b => negb (ignored b)) boxes)
  = annotate_boxes getTextSize a boxes.
Proof.
  revert a. induction boxes as [|b boxes IH]; intros a; [reflexivity|].
  cbn [filter]. destruct (ignored b) eqn:E; cbn [negb annotate_boxes].
  - rewrite annotate_box_ignored by exact E. apply IH.
  - destruct (annotate_box getTextSize a b); [apply IH | reflexivity].
Qed.

Lemma annotate_boxes_counts (boxes : list Box) (a : Annotated) :
  Forall (fun b => 0 <= cls b <= 3) boxes ->
  annotate_boxes getTextSize a boxes
  = Val (mkAnnotated (fire_count a + count_cls 0 boxes)
           (smoke_count a + count_cls 3 boxes)
           (draw (labelled_boxes getTextSize boxes) (frame a))).
Proof.
  revert a. induction boxes as [|b boxes IH]; intros a H.
  - cbn. unfold count_cls. cbn. rewrite !Z.add_0_r, draw_nil.
    destruct a; reflexivity.
  - inversion H as [|? ? Hb Hrest]; subst.
    assert (Hc : cls b = 0 \/ cls b = 1 \/ cls b = 2 \/ cls b = 3) by lia.
    cbn [annotate_boxes]. unfold count_cls, labelled_boxes in *.
    cbn [filter flat_map]. unfold ignored at 1.
    destruct Hc as [E | [E | [E | E]]].
    + rewrite annotate_box_fire by exact E. rewrite IH by exact Hrest.
      rewrite E. cbn [Z.eqb Pos.eqb orb length frame fire_count smoke_count].
      rewrite draw_draw. rewrite Nat2Z.inj_succ. do 2 f_equal; lia.
    + rewrite annotate_box_ignored by (unfold ignored; rewrite E; reflexivity).
      rewrite IH by exact Hrest. rewrite E. reflexivity.
    + rewrite annotate_box_ignored by (unfold ignored; rewrite E; reflexivity).
      rewrite IH by exact Hrest. rewrite E. reflexivity.
    + rewrite annotate_box_smoke by exact E. rewrite IH by exact Hrest.
      rewrite E. cbn [Z.eqb Pos.eqb orb length frame fire_count smoke_count].
      rewrite draw_draw. rewrite Nat2Z.inj_succ. do 2 f_equal; lia.
Qed.

Lemma annotate_all_ignored (boxes : list Box) (a : Annotated) :
  forallb ignored boxes = true -> annotate_boxes getTextSize a boxes = Val a.
Proof.
  revert a. induction boxes as [|b boxes IH]; intros a H; [reflexivity|].
  cbn [forallb] in H. apply andb_prop in H. destruct H as [Hb Hrest].
  cbn [annotate_boxes]. rewrite annotate_box_ignored by exact Hb. auto.
Qed.

Lemma publish_eq (s : App) :
  publish s
  = (Val tt,
     if Queue.full detection_queue_maxsize (detection_queue s) then s
     else set_detection_queue (detection_queue s ++ [current_detections s]) s).
Proof.
  unfold publish, Queue.put. unfold_monad.
  destruct (Queue.full detection_queue_maxsize (detection_queue s));
    reflexivity.
Qed.

Lemma log_if_session_eq (env : Env) (fc sc : Z) (s : App) :
  log_if_session env fc sc s
  = match current_session_id s with
    | Some v =>
        if v =? 0 then (Val tt, s)
        else if db_raises env then (Exn DatabaseError, s)
        else (Val tt,
              set_db (DB.add_detection_log v fc sc (alert_of fc sc)
                        (db_now env) (db s)) s)
    | None => (Val tt, s)
    end.
Proof.
  unfold log_if_session. unfold_monad.
  destruct (current_session_id s) as [v|]; [|reflexivity].
  cbn [truthy]. destruct (v =? 0); [reflexivity|]. cbn [negb].
  destruct (db_raises env); reflexivity.
Qed.

(** One iteration of [generate], with the monad unfolded. *)
Lemma generate_iteration_eq (env : Env) (detected : res (list Box)) (s : App) :
  generate_iteration getTextSize env detected s
  = if negb (capturing s) then (Val None, s)
    else
      match frame_queue s with
      | [] => (Val None, s)
      | f :: rest =>
          let s1 := set_frame_queue rest s in
          if size f =? 0 then (Val None, s1)
          else
            match detected with
            | Exn _ => (Val None, s1)
            | Val boxes =>
                match annotate getTextSize f boxes with
                | Exn _ => (Val None, s1)
                | Val a =>
                    if changed a s
                    then
                      let s2 :=
                        set_current_detections
                          (mkSnapshot (fire_count a) (smoke_count a) (now env))
                          s1 in
                      match log_if_session env (fire_count a) (smoke_count a) s2 with
                      | (Exn _, s3) => (Val None, s3)
                      | (Val _, s3) =>
                          (Val (Some (frame a)), snd (publish s3))
                      end
                    else (Val (Some (frame a)), s1)
                end
            end
      end.
Proof.
  unfold generate_iteration, generate_body, changed. unfold_monad.
  destruct (capturing s); cbn [negb]; [|reflexivity].
  destruct (frame_queue s) as [|f rest]; cbn [Queue.get fst snd];
    [reflexivity|].
  destruct (size f =? 0); [reflexivity|].
  destruct detected as [boxes|e]; [|destruct e; reflexivity].
  destruct (annotate getTextSize f boxes) as [a|e]; [|destruct e; reflexivity].
  cbn [current_detections set_frame_queue].
  destruct (negb (fire_count a =? fire (current_detections s))
            || negb (smoke_count a =? smoke (current_detections s)));
    [|reflexivity].
  match goal with
  | |- context [log_if_session ?e ?x ?y ?st] =>
      destruct (log_if_session e x y st) as [[u|ex] s3]
  end.
  - rewrite publish_eq. reflexivity.
  - destruct ex; reflexivity.
Qed.

(** What one iteration of [generate] can add to [detection_logs]: nothing,
    or one row with the counts of the annotated frame. *)
Lemma generate_iteration_logs (env : Env) (detected : res (list Box)) (s : App) :
  let s' := snd (generate_iteration getTextSize env detected s) in
  DB.detection_logs (db s') = DB.detection_logs (db s)
  \/ exists f rest boxes a v rowid,
       frame_queue s = f :: rest
       /\ detected = Val boxes
       /\ annotate getTextSize f boxes = Val a
       /\ current_session_id s = Some v
       /\ DB.detection_logs (db s')
          = DB.detection_logs (db s)
            ++ [DB.mkLog rowid v (db_now env) (fire_count a) (smoke_count a)
                  (alert_of (fire_count a) (smoke_count a))].
Proof.
  cbv zeta. rewrite generate_iteration_eq.
  destruct (capturing s); cbn [negb]; [|left; reflexivity].
  destruct (frame_queue s) as [|f rest] eqn:Eq; [left; reflexivity|].
  cbv zeta.
  destruct (size f =? 0); [left; reflexivity|].
  destruct detected as [boxes|e]; [|left; reflexivity].
  destruct (annotate getTextSize f boxes) as [a|e] eqn:Ea; [|left; reflexivity].
  destruct (changed a s); [|left; reflexivity].
  rewrite log_if_session_eq.
  cbn [current_session_id set_current_detections set_frame_queue].
  destruct (current_session_id s) as [v|] eqn:Es;
    [destruct (v =? 0); [|destruct (db_raises env); [left; reflexivity|]]|];
    rewrite publish_eq; cbn [snd];
    match goal with |- context [if ?c then _ else _] => destruct c end;
    try (left; reflexivity);
    right; exists f, rest, boxes, a, v; eexists;
    repeat (split; [first [reflexivity | assumption]|]); reflexivity.
Qed.
End AnnotationFacts.

Lemma flat_map_agree {A B : Type} (g h : A -> list B) (l : list A) :
  (forall x, In x l -> g x = h x) -> flat_map g l = flat_map h l.
Proof.
  induction l as [|x l IH]; intros H; [reflexivity|].
  cbn [flat_map]. rewrite (H x (or_introl eq_refl)), IH; [reflexivity|].
  intros y Hy. apply H. right. exact Hy.
Qed.

Lemma box_ops_drawn (getTextSize : Label -> Z * Z) (b : Box)
  (name : string) (color : Color) :
  box_ops getTextSize b name color
  = let x1 := fst (fst (fst (xyxy b))) in
    let y1 := snd (fst (fst (xyxy b))) in
    let x2 := snd (fst (xyxy b)) in
    let y2 := snd (xyxy b) in
    let label := mkLabel name (conf b) in
    [ Rectangle (x1, y1) (x2, y2) color 3;
      Rectangle (x1, y1 - snd (getTextSize label) - 10)
                (x1 + fst (getTextSize label), y1) color (-1);
      PutText label (x1, y1 - 10) (255, 255, 255) 2 ].
Proof.
  unfold box_ops. destruct (xyxy b) as [[[x1 y1] x2] y2]. reflexivity.
Qed.

(** C3. For detections whose classes are among the detector's four,
    annotating a frame counts one fire per class-0 detection and one smoke
    per class-3 detection and draws, for each of these and for no other, a
    labelled box: the rectangle around the detection in the class colour
    with thickness 3, the filled rectangle of the label's size above its
    top-left corner, and the text of class name and score in white on it.
    Detections of class 1 ("light") and class 2 ("no-fire") leave the counts
    and the frame as they are, and a frame with only such detections gives
    counts of zero, so that a log row written for it has alert_triggered
    false. *)
Theorem ignored_classes_never_count
  (getTextSize : Label -> Z * Z) (f : Frame) (boxes : list Box) :
  let labelled_box := fun (b : Box) (name : string) (color : Color) =>
    let x1 := fst (fst (fst (xyxy b))) in
    let y1 := snd (fst (fst (xyxy b))) in
    let x2 := snd (fst (xyxy b)) in
    let y2 := snd (xyxy b) in
    let label := mkLabel name (conf b) in
    [ Rectangle (x1, y1) (x2, y2) color 3;
      Rectangle (x1, y1 - snd (getTextSize label) - 10)
                (x1 + fst (getTextSize label), y1) color (-1);
      PutText label (x1, y1 - 10) (255, 255, 255) 2 ] in
  let drawn_for := fun (b : Box) =>
    if cls b =? 0 then labelled_box b "fire"%string (0, 0, 255)
    else if cls b =? 3 then labelled_box b "smoke"%string (128, 128, 128)
    else [] in
  Forall (fun b => 0 <= cls b <= 3) boxes ->
  annotate getTextSize f boxes
  = Val (mkAnnotated (count_cls 0 boxes) (count_cls 3 boxes)
           (mkFrame (image f) (size f)
                    (overlay f ++ flat_map drawn_for boxes)))
  /\ annotate getTextSize f (filter (fun b => negb (ignored b)) boxes)
     = annotate getTextSize f boxes
  /\ (forall a b, In b boxes -> cls b = 1 \/ cls b = 2 ->
        annotate_box getTextSize a b = Val a)
  /\ (forall a b, In b boxes -> cls b = 0 ->
        annotate_box getTextSize a b
        = Val (mkAnnotated (fire_count a + 1) (smoke_count a)
                 (mkFrame (image (frame a)) (size (frame a))
                    (overlay (frame a)
                     ++ labelled_box b "fire"%string (0, 0, 255)))))
  /\ (forall a b, In b boxes -> cls b = 3 ->
        annotate_box getTextSize a b
        = Val (mkAnnotated (fire_count a) (smoke_count a + 1)
                 (mkFrame (image (frame a)) (size (frame a))
                    (overlay (frame a)
                     ++ labelled_box b "smoke"%string (128, 128, 128)))))
  /\ (forallb ignored boxes = true ->
        annotate getTextSize f boxes = Val (mkAnnotated 0 0 f)
        /\ forall env s,
             exists rows,
               DB.detection_logs
                 (db (snd (generate_iteration getTextSize env (Val boxes) s)))
               = DB.detection_logs (db s) ++ rows
               /\ Forall (fun r => DB.alert_triggered r = false) rows).
Proof.
  cbv zeta. intros Hcls. unfold annotate.
  split; [|split; [|split; [|split; [|split]]]].
  - rewrite annotate_boxes_counts by exact Hcls.
    cbn [fire_count smoke_count frame]. rewrite !Z.add_0_l.
    unfold draw, labelled_boxes. do 4 f_equal.
    rewrite Forall_forall in Hcls.
    apply flat_map_agree. intros b Hb. specialize (Hcls b Hb).
    unfold ignored, class_name, class_color.
    assert (Hc : cls b = 0 \/ cls b = 1 \/ cls b = 2 \/ cls b = 3) by lia.
    destruct Hc as [E | [E | [E | E]]]; rewrite E;
      cbn [Z.eqb Pos.eqb orb]; try reflexivity;
      rewrite box_ops_drawn; reflexivity.
  - apply annotate_boxes_skip_ignored.
  - intros a b _ Hb. apply annotate_box_ignored. unfold ignored.
    destruct Hb as [-> | ->]; reflexivity.
  - intros a b _ Hb. rewrite annotate_box_fire by exact Hb.
    rewrite box_ops_drawn. reflexivity.
  - intros a b _ Hb. rewrite annotate_box_smoke by exact Hb.
    rewrite box_ops_drawn. reflexivity.
  - intros Hign. split; [apply annotate_all_ignored, Hign|].
    intros env s.
    destruct (generate_iteration_logs getTextSize env (Val boxes) s)
      as [Hsame | (f' & rest & boxes' & a & v & rowid & _ & Hb & Ha & _ & Hlogs)].
    + exists []. rewrite app_nil_r. split; [exact Hsame | constructor].
    + injection Hb as <-. unfold annotate in Ha.
      rewrite annotate_all_ignored in Ha by exact Hign.
      injection Ha as <-. eexists. split; [exact Hlogs|].
      constructor; [reflexivity | constructor].
Qed.

Lemma ignored_classes_never_count_witness :
  let text := fun _ : Label => (120, 18) in
  let f := mkFrame 7 6220800 [] in
  let box := fun c => mkBox c (10, 20, 110, 220) 87 in
  annotate text f [box 0; box 1; box 2; box 3; box 0]
  = Val (mkAnnotated 2 1
           (mkFrame 7 6220800
              [ Rectangle (10, 20) (110, 220) (0, 0, 255) 3;
                Rectangle (10, -8) (130, 20) (0, 0, 255) (-1);
                PutText (mkLabel "fire" 87) (10, 10) (255, 255, 255) 2;
                Rectangle (10, 20) (110, 220) (128, 128, 128) 3;
                Rectangle (10, -8) (130, 20) (128, 128, 128) (-1);
                PutText (mkLabel "smoke" 87) (10, 10) (255, 255, 255) 2;
                Rectangle (10, 20) (110, 220) (0, 0, 255) 3;
                Rectangle (10, -8) (130, 20) (0, 0, 255) (-1);
                PutText (mkLabel "fire" 87) (10, 10) (255, 255, 255) 2 ])).
Proof.
  intros text f box.
  refine (proj1 (ignored_classes_never_count text f
                   [box 0; box 1; box 2; box 3; box 0] _)).
  repeat constructor; cbn; lia.
Defined.

(** ** The event notifier *)

Section GenerateFacts.
Variable getTextSize : Label -> Z * Z.

Lemma changed_false (a : Annotated) (s : App) :
  changed a s = false
  <-> fire_count a = fire (current_detections s)
      /\ smoke_count a = smoke (current_detections s).
Proof.
  unfold changed. rewrite orb_false_iff, !negb_false_iff, !Z.eqb_eq. tauto.
Qed.

Lemma changed_true (a : Annotated) (s : App) :
  changed a s = true
  <-> fire_count a <> fire (current_detections s)
      \/ smoke_count a <> smoke (current_detections s).
Proof.
  unfold changed. rewrite orb_true_iff, !negb_true_iff, !Z.eqb_neq. tauto.
Qed.

(** The iteration on a frame the detector and the overlay code accept. *)
Lemma generate_iteration_processed
  (env : Env) (s : App) (f : Frame) (rest : list Frame)
  (boxes : list Box) (a : Annotated) :
  capturing s = true ->
  frame_queue s = f :: rest ->
  size f <> 0 ->
  annotate getTextSize f boxes = Val a ->
  generate_iteration getTextSize env (Val boxes) s
  = let s1 := set_frame_queue rest s in
    if changed a s
    then
      let s2 :=
        set_current_detections
          (mkSnapshot (fire_count a) (smoke_count a) (now env)) s1 in
      match log_if_session env (fire_count a) (smoke_count a) s2 with
      | (Exn _, s3) => (Val None, s3)
      | (Val _, s3) => (Val (Some (frame a)), snd (publish s3))
      end
    else (Val (Some (frame a)), s1).
Proof.
  intros Hc Hq Hsize Ha. rewrite generate_iteration_eq, Hc, Hq.
  apply Z.eqb_neq in Hsize. cbv zeta. rewrite Hsize, Ha. reflexivity.
Qed.
End GenerateFacts.

(** C1, as the code has it.  For a frame that is annotated: when both counts
    equal the previous snapshot's, nothing is put on the event queue; when
    either differs, an event carrying the new snapshot is put on the queue
    provided the queue holds fewer than ten events and the log append, if a
    session is active, did not raise; otherwise the queue is left as it
    was. *)
Theorem snapshot_event_on_change
  (getTextSize : Label -> Z * Z) (env : Env) (s : App)
  (f : Frame) (rest : list Frame) (boxes : list Box) (a : Annotated) :
  capturing s = true ->
  frame_queue s = f :: rest ->
  size f <> 0 ->
  annotate getTextSize f boxes = Val a ->
  let s' := snd (generate_iteration getTextSize env (Val boxes) s) in
  let prior := current_detections s in
  let snapshot := mkSnapshot (fire_count a) (smoke_count a) (now env) in
  let log_raises := truthy (current_session_id s) && db_raises env in
  (fire_count a = fire prior /\ smoke_count a = smoke prior ->
     detection_queue s' = detection_queue s)
  /\ (fire_count a <> fire prior \/ smoke_count a <> smoke prior ->
      (Queue.qsize (detection_queue s) < 10 /\ log_raises = false ->
         detection_queue s' = detection_queue s ++ [snapshot])
      /\ (10 <= Queue.qsize (detection_queue s) \/ log_raises = true ->
         detection_queue s' = detection_queue s)).
Proof.
  intros Hc Hq Hsize Ha. cbv zeta.
  rewrite (generate_iteration_processed getTextSize env s f rest boxes a)
    by assumption.
  cbv zeta. split.
  - intros Hsame. apply changed_false in Hsame. rewrite Hsame. reflexivity.
  - intros Hdiff. apply changed_true in Hdiff. rewrite Hdiff.
    rewrite log_if_session_eq.
    cbn [current_session_id set_current_detections set_frame_queue].
    assert (Hfull : forall s0 : App,
               Queue.full detection_queue_maxsize (detection_queue s0)
               = (10 <=? Queue.qsize (detection_queue s0))) by reflexivity.
    split.
    + intros [Hroom Hlog].
      destruct (current_session_id s) as [v|]; cbn [truthy andb] in Hlog.
      * destruct (v =? 0); cbn [negb andb] in Hlog;
          [|rewrite Hlog]; rewrite publish_eq, Hfull; cbn;
          (destruct (Z.leb_spec 10 (Queue.qsize (detection_queue s)));
           [lia | reflexivity]).
      * rewrite publish_eq, Hfull; cbn.
        destruct (Z.leb_spec 10 (Queue.qsize (detection_queue s)));
          [lia | reflexivity].
    + intros Hdrop.
      destruct (current_session_id s) as [v|]; cbn [truthy andb] in Hdrop.
      * destruct (v =? 0); cbn [negb andb] in Hdrop.
        -- rewrite publish_eq, Hfull; cbn.
           destruct (Z.leb_spec 10 (Queue.qsize (detection_queue s)));
             [reflexivity|]. destruct Hdrop; [lia | discriminate].
        -- destruct (db_raises env); [reflexivity|].
           rewrite publish_eq, Hfull; cbn.
           destruct (Z.leb_spec 10 (Queue.qsize (detection_queue s)));
             [reflexivity|]. destruct Hdrop; [lia | discriminate].
      * rewrite publish_eq, Hfull; cbn.
        destruct (Z.leb_spec 10 (Queue.qsize (detection_queue s)));
          [reflexivity|]. destruct Hdrop; [lia | discriminate].
Qed.

Lemma snapshot_event_on_change_witness :
  let s := watching None (pending_events 3) DB.init_db in
  let env := mkEnv 1001 1001 false in
  detection_queue
    (snd (generate_iteration sample_text_size env (Val [sample_box 0]) s))
  = pending_events 3 ++ [mkSnapshot 1 0 1001].
Proof.
  intros s env.
  refine (proj1 (proj2 (snapshot_event_on_change sample_text_size env s
                          (camera_frame 1) [camera_frame 2] [sample_box 0]
                          (mkAnnotated 1 0
                             (draw (box_ops sample_text_size (sample_box 0)
                                      "fire" (0, 0, 255)) (camera_frame 1)))
                          eq_refl eq_refl _ eq_refl) _) _).
  - discriminate.
  - left. discriminate.
  - split; [reflexivity | reflexivity].
Defined.

(** C1 as stated fails: with ten events pending, a frame whose fire count
    differs from the previous snapshot's updates the snapshot and puts no
    event on the queue. *)
Lemma snapshot_event_dropped_when_queue_full :
  let s := watching None (pending_events 10) DB.init_db in
  let env := mkEnv 1001 1001 false in
  let r := generate_iteration sample_text_size env (Val [sample_box 0]) s in
  fire (current_detections s) = 0
  /\ current_detections (snd r) = mkSnapshot 1 0 1001
  /\ fst r = Val (Some (draw (box_ops sample_text_size (sample_box 0)
                                "fire" (0, 0, 255)) (camera_frame 1)))
  /\ detection_queue (snd r) = detection_queue s
  /\ ~ In (mkSnapshot 1 0 1001) (detection_queue (snd r)).
Proof.
  cbv zeta. repeat (split; [reflexivity|]).
  vm_compute. intros H.
  repeat (destruct H as [H | H]; [discriminate H|]). exact H.
Qed.

(** C5. With a session active, the store accepting the append and the
    previous snapshot at zero counts, a frame for which the detector returns
    one class-0 box and one class-1 box leaves the snapshot at fire 1,
    smoke 0 and appends exactly one log row, for that session, with counts
    1 and 0 and alert_triggered true. *)
Theorem fire_and_light_example
  (getTextSize : Label -> Z * Z) (env : Env) (s : App)
  (f : Frame) (rest : list Frame) (sid : Z) (b0 b1 : Box) (boxes : list Box) :
  capturing s = true ->
  frame_queue s = f :: rest ->
  size f <> 0 ->
  current_session_id s = Some sid ->
  sid <> 0 ->
  db_raises env = false ->
  fire (current_detections s) = 0 ->
  smoke (current_detections s) = 0 ->
  cls b0 = 0 ->
  cls b1 = 1 ->
  boxes = [b0; b1] \/ boxes = [b1; b0] ->
  let s' := snd (generate_iteration getTextSize env (Val boxes) s) in
  current_detections s' = mkSnapshot 1 0 (now env)
  /\ exists rowid,
       DB.detection_logs (db s')
       = DB.detection_logs (db s)
         ++ [DB.mkLog rowid sid (db_now env) 1 0 true].
Proof.
  intros Hc Hq Hsize Hsid Hnz Hdb Hfire Hsmoke H0 H1 Hboxes. cbv zeta.
  assert (Ha : annotate getTextSize f boxes
               = Val (mkAnnotated 1 0
                        (draw (box_ops getTextSize b0 "fire" (0, 0, 255)) f))).
  { unfold annotate.
    destruct Hboxes as [-> | ->]; cbn [annotate_boxes].
    - rewrite annotate_box_fire by exact H0.
      rewrite annotate_box_ignored by (unfold ignored; rewrite H1; reflexivity).
      reflexivity.
    - rewrite annotate_box_ignored by (unfold ignored; rewrite H1; reflexivity).
      rewrite annotate_box_fire by exact H0. reflexivity. }
  rewrite (generate_iteration_processed getTextSize env s f rest boxes _
             Hc Hq Hsize Ha).
  cbv zeta. unfold changed. cbn [fire_count smoke_count].
  rewrite Hfire, Hsmoke. cbn [Z.eqb negb orb].
  rewrite log_if_session_eq.
  cbn [current_session_id set_current_detections set_frame_queue].
  rewrite Hsid. apply Z.eqb_neq in Hnz. rewrite Hnz, Hdb.
  rewrite publish_eq. cbn [snd].
  match goal with |- context [if ?c then _ else _] => destruct c end;
    (split; [reflexivity | eexists; reflexivity]).
Qed.

Lemma fire_and_light_example_witness :
  let s := watching (Some 1) [] one_session in
  let env := mkEnv 1001 1002 false in
  let s' := snd (generate_iteration sample_text_size env
                   (Val [sample_box 0; sample_box 1]) s) in
  current_detections s' = mkSnapshot 1 0 1001
  /\ DB.detection_logs (db s') = [DB.mkLog 1 1 1002 1 0 true].
Proof.
  intros s env s'.
  destruct (fire_and_light_example sample_text_size env s
              (camera_frame 1) [camera_frame 2] 1
              (sample_box 0) (sample_box 1) [sample_box 0; sample_box 1])
    as [Hsnap [rowid Hlogs]];
    try reflexivity; try discriminate; [left; reflexivity|].
  split; [exact Hsnap|].
  fold s' in Hlogs. exact (eq_trans eq_refl eq_refl).
Defined.

(** ** Database errors *)

Lemma generate_iteration_returns
  (getTextSize : Label -> Z * Z) (env : Env) (detected : res (list Box)) (s : App) :
  exists y, fst (generate_iteration getTextSize env detected s) = Val y.
Proof.
  rewrite generate_iteration_eq.
  destruct (negb (capturing s)); [eexists; reflexivity|].
  destruct (frame_queue s) as [|f rest]; [eexists; reflexivity|]. cbv zeta.
  destruct (size f =? 0); [eexists; reflexivity|].
  destruct detected as [boxes|e]; [|eexists; reflexivity].
  destruct (annotate getTextSize f boxes) as [a|e]; [|eexists; reflexivity].
  destruct (changed a s); [|eexists; reflexivity].
  destruct (log_if_session _ _ _ _) as [[u|e] s3]; eexists; reflexivity.
Qed.

(** C7, as the code has it.  When the call into the store raises: [/start],
    [/stop] (with a session to close) and the reporting routes end in that
    exception, the call is not tried again, and what the handler assigned
    before the call stays assigned; an iteration of the annotation loop
    never ends in an exception, and when the log append raises it leaves the
    new snapshot in place, writes no row, publishes no event, yields no
    frame and goes on to the next frame. *)
Theorem database_errors_by_caller (env : Env) :
  db_raises env = true ->
  (forall s, start env s = (Exn DatabaseError, set_capturing true s))
  /\ (forall s, truthy (current_session_id s) = true ->
        stop env s = (Exn DatabaseError, set_capturing false s))
  /\ (forall (A : Type) (query : DB.t -> A) s,
        report query env s = (Exn DatabaseError, s))
  /\ (forall getTextSize detected s,
        exists y, fst (generate_iteration getTextSize env detected s) = Val y)
  /\ (forall getTextSize s f rest boxes a,
        capturing s = true ->
        frame_queue s = f :: rest ->
        size f <> 0 ->
        annotate getTextSize f boxes = Val a ->
        changed a s = true ->
        truthy (current_session_id s) = true ->
        generate_iteration getTextSize env (Val boxes) s
        = (Val None,
           set_current_detections
             (mkSnapshot (fire_count a) (smoke_count a) (now env))
             (set_frame_queue rest s))).
Proof.
  intros Hdb. split; [|split; [|split; [|split]]].
  - intros s. unfold start. unfold_monad. rewrite Hdb. reflexivity.
  - intros s Hsid. unfold stop. unfold_monad.
    cbn [current_session_id set_capturing].
    destruct (current_session_id s) as [v|]; [|discriminate].
    rewrite Hsid, Hdb. reflexivity.
  - intros A query s. unfold report. unfold_monad. rewrite Hdb. reflexivity.
  - intros. apply generate_iteration_returns.
  - intros getTextSize s f rest boxes a Hc Hq Hsize Ha Hch Hsid.
    rewrite (generate_iteration_processed getTextSize env s f rest boxes a)
      by assumption.
    cbv zeta. rewrite Hch, log_if_session_eq.
    cbn [current_session_id set_current_detections set_frame_queue].
    destruct (current_session_id s) as [v|]; [|discriminate].
    cbn [truthy] in Hsid. apply negb_true_iff in Hsid.
    rewrite Hsid, Hdb. reflexivity.
Qed.

Lemma database_errors_by_caller_witness :
  let env := mkEnv 1001 1002 true in
  let s := watching (Some 1) [] one_session in
  start env s = (Exn DatabaseError, s)
  /\ stop env s = (Exn DatabaseError, set_capturing false s)
  /\ fst (generate_iteration sample_text_size env (Val [sample_box 3]) s)
     = Val None.
Proof.
  intros env s.
  destruct (database_errors_by_caller env eq_refl)
    as (Hstart & Hstop & _ & _ & Hgen).
  split; [exact (Hstart s)|].
  split; [exact (Hstop s eq_refl)|].
  rewrite (Hgen sample_text_size s (camera_frame 1) [camera_frame 2]
             [sample_box 3]
             (mkAnnotated 0 1
                (draw (box_ops sample_text_size (sample_box 3)
                         "smoke" (128, 128, 128)) (camera_frame 1))));
    try reflexivity.
  discriminate.
Defined.

(** C7 as stated fails: the log append raises during the first of two
    iterations of a [/video] response; the response does not end there, the
    first frame is skipped and the second is yielded. *)
Lemma log_append_failure_is_caught :
  let s := watching (Some 1) [] one_session in
  let failing := mkEnv 1001 1002 true in
  let working := mkEnv 1003 1004 false in
  db_raises failing = true
  /\ truthy (current_session_id s) = true
  /\ fst (generate_iteration sample_text_size failing (Val [sample_box 0]) s)
     = Val None
  /\ fst (generate sample_text_size
            [(failing, Val [sample_box 0]); (working, Val [sample_box 1])] s)
     = Val [camera_frame 2].
Proof.
  cbv zeta. repeat split.
Qed.

(** ** What each action does to the store *)

Lemma start_db (env : Env) (s : App) :
  db (snd (start env s))
  = if db_raises env then db s
    else snd (DB.start_session (db_now env) (db s)).
Proof.
  unfold start. unfold_monad. destruct (db_raises env); reflexivity.
Qed.

Lemma stop_db (env : Env) (s : App) :
  db (snd (stop env s))
  = match current_session_id s with
    | Some v =>
        if (v =? 0) || db_raises env then db s
        else DB.end_session v (db_now env) (db s)
    | None => db s
    end.
Proof.
  unfold stop. unfold_monad. cbn [current_session_id set_capturing].
  destruct (current_session_id s) as [v|]; [|reflexivity].
  cbn [truthy]. destruct (v =? 0); [reflexivity|]. cbn [negb orb].
  destruct (db_raises env); reflexivity.
Qed.

Lemma capture_step_db (cam : Camera) (pc : CapturePc) (s : App) :
  db (snd (fst (capture_step cam pc s))) = db s.
Proof.
  destruct pc as [|n| |]; cbn [capture_step].
  - destruct (stop_event s); [reflexivity|].
    destruct (negb (capturing s)); [reflexivity|].
    destruct (negb (isOpened cam)); reflexivity.
  - destruct (negb (negb (stop_event s) && capturing s)); [reflexivity|].
    destruct (read cam) as [|f|]; try reflexivity.
    + destruct (failure_threshold <? n + 1); reflexivity.
    + destruct (insert_frame (frame_queue s) f); reflexivity.
  - reflexivity.
  - reflexivity.
Qed.

Lemma generate_iteration_sessions
  (getTextSize : Label -> Z * Z) (env : Env) (detected : res (list Box)) (s : App) :
  DB.detection_sessions (db (snd (generate_iteration getTextSize env detected s)))
  = DB.detection_sessions (db s).
Proof.
  rewrite generate_iteration_eq.
  destruct (negb (capturing s)); [reflexivity|].
  destruct (frame_queue s) as [|f rest]; [reflexivity|]. cbv zeta.
  destruct (size f =? 0); [reflexivity|].
  destruct detected as [boxes|e]; [|reflexivity].
  destruct (annotate getTextSize f boxes) as [a|e]; [|reflexivity].
  destruct (changed a s); [|reflexivity].
  rewrite log_if_session_eq.
  cbn [current_session_id set_current_detections set_frame_queue].
  destruct (current_session_id s) as [v|];
    [destruct (v =? 0); [|destruct (db_raises env); [reflexivity|]]|];
    rewrite publish_eq; cbn [snd];
    match goal with |- context [if ?c then _ else _] => destruct c end;
    reflexivity.
Qed.

Lemma alert_of_matches (rowid sid t fc sc : Z) :
  alert_matches (DB.mkLog rowid sid t fc sc (alert_of fc sc)).
Proof.
  unfold alert_matches, alert_of. cbn.
  rewrite orb_true_iff, !Z.ltb_lt. lia.
Qed.

Lemma act_logs (getTextSize : Label -> Z * Z) (a : Action) (st : CapturePc * App) :
  exists rows,
    DB.detection_logs (db (snd (act getTextSize a st)))
    = DB.detection_logs (db (snd st)) ++ rows
    /\ Forall alert_matches rows.
Proof.
  destruct st as [pc s]. destruct a as [env | env | env detected | cam];
    cbn [act snd].
  - exists []. rewrite app_nil_r, start_db.
    split; [destruct (db_raises env); reflexivity | constructor].
  - exists []. rewrite app_nil_r, stop_db. split; [|constructor].
    destruct (current_session_id s) as [v|]; [|reflexivity].
    destruct ((v =? 0) || db_raises env); reflexivity.
  - destruct (generate_iteration_logs getTextSize env detected s)
      as [Hsame | (f & rest & boxes & an & v & rowid & _ & _ & _ & _ & Hlogs)].
    + exists []. rewrite app_nil_r. split; [exact Hsame | constructor].
    + eexists. split; [exact Hlogs|].
      constructor; [apply alert_of_matches | constructor].
  - exists []. rewrite app_nil_r, capture_step_db. split; [reflexivity | constructor].
Qed.

(** C10. Whatever the application does (requests on [/start] and [/stop],
    iterations of the annotation loop and of the capture thread, in any
    order and with any answers from the camera, the detector, the clock and
    the store), every row it adds to detection_logs has alert_triggered true
    if and only if its fire_count or its smoke_count is above zero. *)
Theorem alert_matches_counts
  (getTextSize : Label -> Z * Z) (l : list Action) (st : CapturePc * App) :
  exists rows,
    DB.detection_logs (db (snd (acts getTextSize l st)))
    = DB.detection_logs (db (snd st)) ++ rows
    /\ Forall
         (fun r =>
            DB.alert_triggered r = true
            <-> (DB.fire_count r > 0 \/ DB.smoke_count r > 0))
         rows.
Proof.
  revert st. induction l as [|a l IH]; intros st.
  - exists []. rewrite app_nil_r. split; [reflexivity | constructor].
  - cbn [acts fold_left].
    destruct (IH (act getTextSize a st)) as [rows2 [H2 F2]].
    destruct (act_logs getTextSize a st) as [rows1 [H1 F1]].
    exists (rows1 ++ rows2). split.
    + unfold acts in H2. rewrite H2, H1, app_assoc. reflexivity.
    + apply Forall_app. split; assumption.
Qed.

(** ** Sessions and the routes *)

Lemma clear_queue_nil {A : Type} (q : list A) : clear_queue q = [].
Proof. induction q as [|x q IH]; [reflexivity | exact IH]. Qed.

Lemma start_ok (env : Env) (s : App) :
  db_raises env = false ->
  start env s
  = (Val (mkStartResponse "ok" (fst (DB.start_session (db_now env) (db s)))),
     mkApp true (stop_event s) (mkSnapshot 0 0 (now env))
           (Some (fst (DB.start_session (db_now env) (db s))))
           (frame_queue s) []
           (snd (DB.start_session (db_now env) (db s)))).
Proof.
  intros Hdb. unfold start. unfold_monad. rewrite Hdb.
  cbn. rewrite clear_queue_nil. reflexivity.
Qed.

Lemma stop_ok (env : Env) (s : App) :
  db_raises env = false ->
  stop env s
  = (Val "OK"%string,
     mkApp false (stop_event s) (mkSnapshot 0 0 (now env))
           (if truthy (current_session_id s) then None else current_session_id s)
           (frame_queue s) (detection_queue s)
           (match current_session_id s with
            | Some v =>
                if v =? 0 then db s else DB.end_session v (db_now env) (db s)
            | None => db s
            end)).
Proof.
  intros Hdb. unfold stop. unfold_monad.
  destruct s as [c e cur [v|] fq dq d];
    cbn [current_session_id set_capturing truthy]; [|reflexivity].
  destruct (v =? 0); cbn [negb]; [reflexivity|].
  rewrite Hdb. reflexivity.
Qed.

Lemma act_keeps_session
  (getTextSize : Label -> Z * Z) (a : Action) (st : CapturePc * App)
  (sid : Z) (r : DB.SessionRow) :
  is_stop a = false ->
  DB.session sid (db (snd st)) = Some r ->
  DB.session sid (db (snd (act getTextSize a st))) = Some r.
Proof.
  intros Ha Hr. destruct st as [pc s].
  destruct a as [env | env | env detected | cam]; cbn [act snd] in *.
  - rewrite start_db. destruct (db_raises env); [exact Hr|].
    unfold DB.session in *. cbn. apply find_app_some, Hr.
  - discriminate.
  - unfold DB.session in *. rewrite generate_iteration_sessions. exact Hr.
  - rewrite capture_step_db. exact Hr.
Qed.

Lemma acts_keep_session
  (getTextSize : Label -> Z * Z) (l : list Action) (st : CapturePc * App)
  (sid : Z) (r : DB.SessionRow) :
  forallb (fun a => negb (is_stop a)) l = true ->
  DB.session sid (db (snd st)) = Some r ->
  DB.session sid (db (snd (acts getTextSize l st))) = Some r.
Proof.
  revert st. induction l as [|a l IH]; intros st Hl Hr; [exact Hr|].
  cbn [forallb] in Hl. apply andb_prop in Hl. destruct Hl as [Ha Hl].
  apply negb_true_iff in Ha.
  cbn [acts fold_left]. apply IH; [exact Hl|].
  apply act_keeps_session; assumption.
Qed.

(** C8. When the store accepts the insert, [/start] answers status ok with
    the id of a session row that did not exist before and now exists with
    status 'active' and no end_time, and makes it the current session.  A
    later [/start], with no [/stop] in between, answers with a different id
    and leaves the earlier row as it was: still 'active', still without
    end_time. *)
Theorem start_again_keeps_earlier_session
  (getTextSize : Label -> Z * Z) (env1 env2 : Env) (between : list Action)
  (pc : CapturePc) (s : App) :
  db_raises env1 = false ->
  db_raises env2 = false ->
  forallb (fun a => negb (is_stop a)) between = true ->
  exists sid1 s1,
    start env1 s = (Val (mkStartResponse "ok" sid1), s1)
    /\ DB.session sid1 (db s) = None
    /\ DB.session sid1 (db s1)
       = Some (DB.mkSession sid1 (db_now env1) None 0 0 "active")
    /\ current_session_id s1 = Some sid1
    /\ exists sid2 s3,
         start env2 (snd (acts getTextSize between (pc, s1)))
         = (Val (mkStartResponse "ok" sid2), s3)
         /\ sid2 <> sid1
         /\ DB.session sid1 (db s3)
            = Some (DB.mkSession sid1 (db_now env1) None 0 0 "active").
Proof.
  intros Hdb1 Hdb2 Hbetween.
  rewrite (start_ok env1 s Hdb1).
  pose proof (session_after_start (db_now env1) (db s)) as H1.
  destruct (DB.start_session (db_now env1) (db s)) as [sid1 d1] eqn:E1.
  destruct H1 as [Hnew Hfresh]. cbn [fst snd].
  eexists. eexists. split; [reflexivity|].
  split; [exact Hfresh|]. split; [exact Hnew|]. split; [reflexivity|].
  set (s1 := mkApp true _ _ _ _ _ d1).
  assert (Hkept : DB.session sid1
                    (db (snd (acts getTextSize between (pc, s1))))
                  = Some (DB.mkSession sid1 (db_now env1) None 0 0 "active")).
  { apply acts_keep_session; [exact Hbetween | exact Hnew]. }
  set (s2 := snd (acts getTextSize between (pc, s1))) in *.
  rewrite (start_ok env2 s2 Hdb2).
  pose proof (session_after_start (db_now env2) (db s2)) as H2.
  destruct (DB.start_session (db_now env2) (db s2)) as [sid2 d2] eqn:E2.
  destruct H2 as [_ Hfresh2]. cbn [fst snd].
  eexists. eexists. split; [reflexivity|]. split.
  - intros ->. rewrite Hkept in Hfresh2. discriminate.
  - cbn [db].
    assert (Hd2 : d2 = snd (DB.start_session (db_now env2) (db s2)))
      by (rewrite E2; reflexivity).
    rewrite Hd2. unfold DB.session in *. cbn. apply find_app_some, Hkept.
Qed.

Lemma start_again_keeps_earlier_session_witness :
  let s := initial 0 DB.init_db in
  let s1 := snd (start (mkEnv 1000 1000 false) s) in
  let between :=
    [ DoCapture (mkCamera true ReadFailed);
      DoCapture (mkCamera true (ReadFrame (camera_frame 1)));
      DoGenerate (mkEnv 1001 1002 false) (Val [sample_box 0]) ] in
  let s2 := snd (acts sample_text_size between (Outer, s1)) in
  let s3 := snd (start (mkEnv 2000 2000 false) s2) in
  fst (start (mkEnv 1000 1000 false) s) = Val (mkStartResponse "ok" 1)
  /\ fst (start (mkEnv 2000 2000 false) s2) = Val (mkStartResponse "ok" 2)
  /\ DB.session 1 (db s3) = Some (DB.mkSession 1 1000 None 0 0 "active").
Proof.
  intros s s1 between s2 s3.
  destruct (start_again_keeps_earlier_session sample_text_size
              (mkEnv 1000 1000 false) (mkEnv 2000 2000 false) between Outer s
              eq_refl eq_refl eq_refl)
    as (sid1 & s1' & Hstart1 & _ & _ & _ & sid2 & s3' & Hstart2 & _ & Hrow).
  assert (Hsid1 : sid1 = 1).
  { apply (f_equal fst) in Hstart1. cbn [fst] in Hstart1.
    change (fst (start (mkEnv 1000 1000 false) s))
      with (Val (mkStartResponse "ok" 1)) in Hstart1.
    injection Hstart1 as <-. reflexivity. }
  assert (Hs1 : s1' = s1).
  { apply (f_equal snd) in Hstart1. symmetry. exact Hstart1. }
  subst sid1 s1'. fold s2 in Hstart2.
  assert (Hs3 : s3' = s3).
  { apply (f_equal snd) in Hstart2. symmetry. exact Hstart2. }
  subst s3'.
  split; [reflexivity|]. split; [reflexivity|]. exact Hrow.
Defined.

(** C9, as the code has it.  A [/start] whose call into the store does not
    raise leaves the snapshot at fire 0, smoke 0 with the time of the
    request and the event queue empty, so that [/detection_status] right
    after it answers zero counts; a [/stop] that makes no call into the
    store, or whose call does not raise, leaves the snapshot at fire 0,
    smoke 0 with the time of the request.  When the call raises, the
    handler ends before the reset: the request ends in the exception and the
    snapshot and the event queue are as they were. *)
Theorem start_and_stop_reset_snapshot (env : Env) (s : App) :
  (db_raises env = false ->
   exists r s',
     start env s = (Val r, s')
     /\ current_detections s' = mkSnapshot 0 0 (now env)
     /\ detection_queue s' = []
     /\ detection_status s' = (Val (mkSnapshot 0 0 (now env)), s'))
  /\ (db_raises env = false \/ truthy (current_session_id s) = false ->
      exists s',
        stop env s = (Val "OK"%string, s')
        /\ current_detections s' = mkSnapshot 0 0 (now env)
        /\ detection_status s' = (Val (mkSnapshot 0 0 (now env)), s'))
  /\ (db_raises env = true ->
      fst (start env s) = Exn DatabaseError
      /\ current_detections (snd (start env s)) = current_detections s
      /\ detection_queue (snd (start env s)) = detection_queue s)
  /\ (db_raises env = true ->
      truthy (current_session_id s) = true ->
      fst (stop env s) = Exn DatabaseError
      /\ current_detections (snd (stop env s)) = current_detections s
      /\ detection_queue (snd (stop env s)) = detection_queue s).
Proof.
  split; [|split; [|split]].
  - intros Hdb. rewrite (start_ok env s Hdb). eexists. eexists.
    repeat (split; [reflexivity|]). reflexivity.
  - intros Hok. unfold stop. unfold_monad.
    destruct s as [c e cur [v|] fq dq d];
      cbn [current_session_id set_capturing truthy] in *;
      [|eexists; repeat (split; [reflexivity|]); reflexivity].
    destruct (v =? 0); cbn [negb] in *;
      [eexists; repeat (split; [reflexivity|]); reflexivity|].
    destruct Hok as [Hdb | Hfalse]; [|discriminate].
    rewrite Hdb. eexists. repeat (split; [reflexivity|]). reflexivity.
  - intros Hdb. unfold start. unfold_monad. rewrite Hdb.
    repeat split.
  - intros Hdb Hsid. unfold stop. unfold_monad.
    destruct s as [c e cur [v|] fq dq d];
      cbn [current_session_id set_capturing truthy] in *; [|discriminate].
    rewrite Hsid, Hdb. repeat split.
Qed.

Lemma start_and_stop_reset_snapshot_witness :
  let s := mkApp true false (mkSnapshot 3 1 1500) (Some 1)
                 [camera_frame 1] (pending_events 4) one_session in
  let env := mkEnv 2000 2001 false in
  fst (detection_status (snd (start env s))) = Val (mkSnapshot 0 0 2000)
  /\ detection_queue (snd (start env s)) = []
  /\ fst (detection_status (snd (stop env s))) = Val (mkSnapshot 0 0 2000)
  /\ fst (start (mkEnv 2000 2001 true) s) = Exn DatabaseError
  /\ fst (stop (mkEnv 2000 2001 true) s) = Exn DatabaseError.
Proof.
  intros s env.
  destruct (start_and_stop_reset_snapshot env s)
    as (Hstart & Hstop & _ & _).
  destruct (Hstart eq_refl) as (r & s1 & Hs1 & _ & Hq & Hstatus).
  destruct (Hstop (or_introl eq_refl)) as (s2 & Hs2 & _ & Hstatus2).
  destruct (start_and_stop_reset_snapshot (mkEnv 2000 2001 true) s)
    as (_ & _ & Hstart' & Hstop').
  destruct (Hstart' eq_refl) as (He1 & _).
  destruct (Hstop' eq_refl eq_refl) as (He2 & _).
  rewrite Hs1, Hs2. cbn [snd]. rewrite Hstatus, Hstatus2, Hq.
  repeat split; assumption.
Defined.

(** C9 as stated fails: the store raises on the INSERT of [/start]; the
    request ends in the exception, the snapshot still shows the old counts,
    the four pending events are still queued, and [/detection_status]
    right after answers fire 3, smoke 1. *)
Lemma start_with_failing_store_resets_nothing :
  let s := mkApp true false (mkSnapshot 3 1 1500) (Some 1)
                 [camera_frame 1] (pending_events 4) one_session in
  let r := start (mkEnv 2000 2001 true) s in
  fst r = Exn DatabaseError
  /\ current_detections (snd r) = mkSnapshot 3 1 1500
  /\ detection_queue (snd r) = pending_events 4
  /\ detection_status (snd r) = (Val (mkSnapshot 3 1 1500), snd r)
  /\ mkSnapshot 3 1 1500 <> mkSnapshot 0 0 2000.
Proof.
  cbv zeta. repeat (split; [reflexivity|]). discriminate.
Qed.

(** ** The capture loop *)

Lemma capture_run_app (cams1 cams2 : list Camera) (pc : CapturePc) (s : App) :
  capture_run (cams1 ++ cams2) pc s
  = let '(pc1, s1, ev1) := capture_run cams1 pc s in
    let '(pc2, s2, ev2) := capture_run cams2 pc1 s1 in
    (pc2, s2, ev1 ++ ev2).
Proof.
  revert pc s. induction cams1 as [|cam cams1 IH]; intros pc s.
  - cbn [app capture_run].
    destruct (capture_run cams2 pc s) as [[pc2 s2] ev2]. reflexivity.
  - cbn [app capture_run].
    destruct (capture_step cam pc s) as [[pc' s'] ev]. rewrite IH.
    destruct (capture_run cams1 pc' s') as [[pc1 s1] ev1].
    destruct (capture_run cams2 pc1 s1) as [[pc2 s2] ev2].
    rewrite app_assoc. reflexivity.
Qed.

Lemma capture_step_failed (cam : Camera) (n : Z) (s : App) :
  stop_event s = false ->
  capturing s = true ->
  read cam = ReadFailed ->
  capture_step cam (Inner n) s
  = if 10 <? n + 1
    then (Outer, s, [Read; Release])
    else (Inner (n + 1), s, [Read; Sleep 100]).
Proof.
  intros Hstop Hcap Hread. cbn [capture_step].
  rewrite Hstop, Hcap, Hread. reflexivity.
Qed.

Lemma capture_run_failures (cams : list Camera) (n : Z) (s : App) :
  stop_event s = false ->
  capturing s = true ->
  Forall (fun cam => read cam = ReadFailed) cams ->
  n + Z.of_nat (length cams) <= 10 ->
  capture_run cams (Inner n) s
  = (Inner (n + Z.of_nat (length cams)), s,
     concat (map (fun _ => [Read; Sleep 100]) cams)).
Proof.
  intros Hstop Hcap Hall. revert n.
  induction Hall as [|cam cams Hcam Hall IH]; intros n Hn.
  - cbn. rewrite Z.add_0_r. reflexivity.
  - cbn [length] in Hn. rewrite Nat2Z.inj_succ in Hn.
    cbn [capture_run]. rewrite capture_step_failed by assumption.
    destruct (Z.ltb_spec 10 (n + 1)); [lia|].
    rewrite IH by lia. cbn [map concat length]. rewrite Nat2Z.inj_succ.
    do 2 f_equal. f_equal. lia.
Qed.

(** C6. While capturing is on: a failed read adds one to the failure counter
    and, as long as the counter is at most 10, the loop pauses 0.1 s and
    reads again; the read that takes the counter above 10 (the eleventh
    failure in a row) releases the connection and leaves for the outer loop,
    which opens it again; no release happens before that; a read that
    succeeds puts the counter back to zero. *)
Theorem capture_failure_threshold (s : App) :
  stop_event s = false ->
  capturing s = true ->
  (length (frame_queue s) <= 2)%nat ->
  (forall cam n,
     read cam = ReadFailed ->
     capture_step cam (Inner n) s
     = if 10 <? n + 1
       then (Outer, s, [Read; Release])
       else (Inner (n + 1), s, [Read; Sleep 100]))
  /\ (forall cam n f,
        read cam = ReadFrame f ->
        exists q,
          capture_step cam (Inner n) s
          = (Inner 0, set_frame_queue q s, [Read; Sleep 30]))
  /\ (forall cams n,
        Forall (fun cam => read cam = ReadFailed) cams ->
        n + Z.of_nat (length cams) <= 10 ->
        capture_run cams (Inner n) s
        = (Inner (n + Z.of_nat (length cams)), s,
           concat (map (fun _ => [Read; Sleep 100]) cams)))
  /\ (forall cams cam reopened n,
        Forall (fun cam => read cam = ReadFailed) (cams ++ [cam]) ->
        n + Z.of_nat (length cams) = 10 ->
        isOpened reopened = true ->
        capture_run (cams ++ [cam; reopened]) (Inner n) s
        = (Inner 0, s,
           concat (map (fun _ => [Read; Sleep 100]) cams)
           ++ [Read; Release; Open])).
Proof.
  intros Hstop Hcap Hq. split; [|split; [|split]].
  - intros cam n Hread. apply capture_step_failed; assumption.
  - intros cam n f Hread. cbn [capture_step].
    rewrite Hstop, Hcap, Hread. cbn [negb andb].
    destruct (insert_frame_among_some 0 0 (frame_queue s) f Hq) as [q Hins].
    unfold insert_frame. rewrite Hins. eexists. reflexivity.
  - intros cams n Hall Hn. apply capture_run_failures; assumption.
  - intros cams cam reopened n Hall Hn Hopen.
    apply Forall_app in Hall. destruct Hall as [Hall Hlast].
    inversion Hlast as [|? ? Hcam _]; subst.
    change (cams ++ [cam; reopened]) with (cams ++ ([cam] ++ [reopened])).
    rewrite capture_run_app.
    rewrite capture_run_failures by (try assumption; lia).
    rewrite Hn. cbn [app capture_run].
    rewrite capture_step_failed by assumption. cbn [Z.add Z.ltb Z.compare
      Pos.add Pos.succ Pos.compare Pos.compare_cont].
    cbn [capture_step]. rewrite Hstop, Hcap, Hopen. cbn [negb].
    rewrite app_nil_r. reflexivity.
Qed.

Lemma capture_failure_threshold_witness :
  let s := watching None [] DB.init_db in
  let failed := mkCamera true ReadFailed in
  let good := mkCamera true (ReadFrame (camera_frame 3)) in
  fst (fst (capture_run (repeat failed 10) (Inner 0) s)) = Inner 10
  /\ fst (fst (capture_run (repeat failed 10 ++ [good]) (Inner 0) s)) = Inner 0
  /\ capture_run (repeat failed 10 ++ [failed; good]) (Inner 0) s
     = (Inner 0, s,
        concat (map (fun _ => [Read; Sleep 100]) (repeat failed 10))
        ++ [Read; Release; Open]).
Proof.
  intros s failed good.
  destruct (capture_failure_threshold s eq_refl eq_refl (Nat.le_refl 2))
    as (_ & _ & Hbelow & Hreach).
  split; [|split].
  - rewrite (Hbelow (repeat failed 10) 0);
      [reflexivity | repeat constructor | cbn; lia].
  - reflexivity.
  - apply (Hreach (repeat failed 10) failed good 0);
      [repeat constructor | reflexivity | reflexivity].
Defined.

(** * Further properties *)

(** ** The routes and loops, with the monad unfolded *)

Lemma start_eq (env : Env) (s : App) :
  start env s
  = if db_raises env then (Exn DatabaseError, set_capturing true s)
    else
      (Val (mkStartResponse "ok" (fst (DB.start_session (db_now env) (db s)))),
       mkApp true (stop_event s) (mkSnapshot 0 0 (now env))
             (Some (fst (DB.start_session (db_now env) (db s))))
             (frame_queue s) []
             (snd (DB.start_session (db_now env) (db s)))).
Proof.
  destruct (db_raises env) eqn:Hdb; [|apply start_ok, Hdb].
  unfold start. unfold_monad. rewrite Hdb. reflexivity.
Qed.

Lemma stop_eq (env : Env) (s : App) :
  stop env s
  = match current_session_id s with
    | Some v =>
        if v =? 0
        then (Val "OK"%string,
              mkApp false (stop_event s) (mkSnapshot 0 0 (now env)) (Some v)
                    (frame_queue s) (detection_queue s) (db s))
        else if db_raises env
             then (Exn DatabaseError, set_capturing false s)
             else (Val "OK"%string,
                   mkApp false (stop_event s) (mkSnapshot 0 0 (now env)) None
                         (frame_queue s) (detection_queue s)
                         (DB.end_session v (db_now env) (db s)))
    | None =>
        (Val "OK"%string,
         mkApp false (stop_event s) (mkSnapshot 0 0 (now env)) None
               (frame_queue s) (detection_queue s) (db s))
    end.
Proof.
  unfold stop. unfold_monad.
  destruct s as [c e cur [v|] fq dq d];
    cbn [current_session_id set_capturing truthy]; [|reflexivity].
  destruct (v =? 0); cbn [negb]; [reflexivity|].
  destruct (db_raises env); reflexivity.
Qed.

Lemma event_stream_iteration_eq (s : App) :
  event_stream_iteration s
  = if negb (capturing s) then (Val Idle, s)
    else
      match detection_queue s with
      | [] => (Val (Emit Heartbeat), s)
      | x :: rest => (Val (Emit (Data x)), set_detection_queue rest s)
      end.
Proof.
  unfold event_stream_iteration. unfold_monad.
  destruct (negb (capturing s)); [reflexivity|].
  destruct (detection_queue s); reflexivity.
Qed.

Lemma full_detection_queue (q : list Snapshot) :
  Queue.full detection_queue_maxsize q = (10 <=? Queue.qsize q).
Proof. reflexivity. Qed.

(** What one iteration of [generate] leaves alone, and what it can do to the
    two queues. *)
Lemma generate_iteration_frame
  (getTextSize : Label -> Z * Z) (env : Env) (detected : res (list Box)) (s : App) :
  let s' := snd (generate_iteration getTextSize env detected s) in
  capturing s' = capturing s
  /\ stop_event s' = stop_event s
  /\ current_session_id s' = current_session_id s
  /\ (frame_queue s' = frame_queue s
      \/ exists f, frame_queue s = f :: frame_queue s')
  /\ (detection_queue s' = detection_queue s
      \/ (Queue.qsize (detection_queue s) < 10
          /\ detection_queue s' = detection_queue s ++ [current_detections s'])).
Proof.
  cbv zeta. rewrite generate_iteration_eq.
  destruct (negb (capturing s)); [cbn; tauto|].
  destruct (frame_queue s) as [|f rest] eqn:Eq; [cbn; rewrite Eq; tauto|].
  cbv zeta.
  assert (Hskip : let s1 := set_frame_queue rest s in
                  capturing s1 = capturing s
                  /\ stop_event s1 = stop_event s
                  /\ current_session_id s1 = current_session_id s
                  /\ (frame_queue s1 = f :: rest
                      \/ exists f0, f :: rest = f0 :: frame_queue s1)
                  /\ (detection_queue s1 = detection_queue s
                      \/ (Queue.qsize (detection_queue s) < 10
                          /\ detection_queue s1
                             = detection_queue s ++ [current_detections s1]))).
  { cbn. repeat (split; [reflexivity|]). split; [right; eauto | left; reflexivity]. }
  destruct (size f =? 0); [exact Hskip|].
  destruct detected as [boxes|e]; [|exact Hskip].
  destruct (annotate getTextSize f boxes) as [a|e]; [|exact Hskip].
  destruct (changed a s); [|exact Hskip]. clear Hskip.
  rewrite log_if_session_eq.
  cbn [current_session_id set_current_detections set_frame_queue].
  destruct (current_session_id s) as [v|] eqn:Es;
    [destruct (v =? 0); [|destruct (db_raises env)]|];
    try rewrite publish_eq; cbn [snd];
    try rewrite full_detection_queue;
    cbn [detection_queue set_db set_current_detections set_frame_queue];
    try (destruct (Z.leb_spec 10 (Queue.qsize (detection_queue s))));
    cbn; repeat (split; [first [reflexivity | assumption]|]);
    (split; [right; eauto|]);
    first [left; reflexivity | right; split; [assumption | reflexivity]].
Qed.

Lemma capture_step_frame (cam : Camera) (pc : CapturePc) (s : App) :
  let s' := snd (fst (capture_step cam pc s)) in
  capturing s' = capturing s
  /\ stop_event s' = stop_event s
  /\ current_session_id s' = current_session_id s
  /\ current_detections s' = current_detections s
  /\ detection_queue s' = detection_queue s.
Proof.
  destruct s as [c e cur sid fq dq d].
  destruct pc as [|n| |]; cbn [capture_step capturing stop_event].
  - destruct e, c, (isOpened cam); cbn; tauto.
  - destruct e, c; cbn [negb andb fst snd]; try (cbn; tauto).
    destruct (read cam) as [|f|]; try (cbn; tauto).
    + destruct (failure_threshold <? n + 1); cbn; tauto.
    + cbn [frame_queue]. destruct (insert_frame fq f); cbn; tauto.
  - cbn; tauto.
  - cbn; tauto.
Qed.

Lemma performs_invariant
  (getTextSize : Label -> Z * Z) (P : CapturePc * App -> Prop) :
  (forall x st, P st -> P (perform getTextSize x st)) ->
  forall l st, P st -> P (performs getTextSize l st).
Proof.
  intros Hstep l. induction l as [|x l IH]; intros st H; [exact H|].
  cbn [performs fold_left]. apply IH, Hstep, H.
Qed.

(** ** Invariants of the two queues and of the capture thread *)

Lemma perform_frame_queue
  (getTextSize : Label -> Z * Z) (x : Activity) (pc : CapturePc) (s : App) :
  (length (frame_queue s) <= 2)%nat ->
  pc <> Parked ->
  (length (frame_queue (snd (perform getTextSize x (pc, s)))) <= 2)%nat
  /\ fst (perform getTextSize x (pc, s)) <> Parked.
Proof.
  intros Hq Hpc.
  destruct x as [[env | env | env detected | cam]|]; cbn [perform act fst snd].
  - rewrite start_eq. destruct (db_raises env); cbn; auto.
  - rewrite stop_eq. destruct (current_session_id s) as [v|];
      [destruct (v =? 0); [|destruct (db_raises env)]|]; cbn; auto.
  - split; [|exact Hpc].
    destruct (generate_iteration_frame getTextSize env detected s)
      as (_ & _ & _ & [Hsame | [f Hf]] & _).
    + rewrite Hsame. exact Hq.
    + rewrite Hf in Hq. cbn [length] in Hq. lia.
  - destruct pc as [|n| |]; cbn [capture_step]; [| |contradiction|].
    + destruct (stop_event s); [cbn; split; [exact Hq | discriminate]|].
      destruct (negb (capturing s)); [cbn; split; [exact Hq | discriminate]|].
      destruct (negb (isOpened cam)); cbn; split; try exact Hq; discriminate.
    + destruct (negb (negb (stop_event s) && capturing s));
        [cbn; split; [exact Hq | discriminate]|].
      destruct (read cam) as [|f|];
        try (cbn; split; [exact Hq | discriminate]).
      * destruct (failure_threshold <? n + 1); cbn; split;
          try exact Hq; discriminate.
      * rewrite insert_frame_keeps_two by exact Hq. cbn.
        split; [apply lastn_length | discriminate].
    + cbn. split; [exact Hq | discriminate].
  - rewrite event_stream_iteration_eq. split; [|exact Hpc].
    destruct (negb (capturing s)); [exact Hq|].
    destruct (detection_queue s); exact Hq.
Qed.

(** X1. Starting with at most two frames buffered, whatever the application
    does afterwards the frame buffer never holds more than two frames and
    the capture thread is never parked in [put]. *)
Theorem frame_queue_never_overflows
  (getTextSize : Label -> Z * Z) (l : list Activity) (pc : CapturePc) (s : App) :
  (length (frame_queue s) <= 2)%nat ->
  pc <> Parked ->
  (length (frame_queue (snd (performs getTextSize l (pc, s)))) <= 2)%nat
  /\ fst (performs getTextSize l (pc, s)) <> Parked.
Proof.
  intros Hq Hpc.
  apply (performs_invariant getTextSize
           (fun st => (length (frame_queue (snd st)) <= 2)%nat
                      /\ fst st <> Parked)).
  - intros x [pc' s'] [H1 H2]. apply perform_frame_queue; assumption.
  - split; assumption.
Qed.

Lemma frame_queue_never_overflows_witness :
  let reads :=
    map (fun n => Core (DoCapture (mkCamera true (ReadFrame (camera_frame n)))))
        [3; 4; 5; 6]%nat in
  let st := performs sample_text_size reads (Inner 0, watching None [] DB.init_db) in
  (length (frame_queue (snd st)) <= 2)%nat /\ fst st <> Parked.
Proof.
  intros reads st.
  apply (frame_queue_never_overflows sample_text_size reads (Inner 0)
           (watching None [] DB.init_db)); [apply Nat.le_refl | discriminate].
Defined.

Lemma perform_detection_queue
  (getTextSize : Label -> Z * Z) (x : Activity) (st : CapturePc * App) :
  Queue.qsize (detection_queue (snd st)) <= 10 ->
  Queue.qsize (detection_queue (snd (perform getTextSize x st))) <= 10.
Proof.
  destruct st as [pc s]. cbn [snd]. intros Hq.
  destruct x as [[env | env | env detected | cam]|]; cbn [perform act fst snd].
  - rewrite start_eq. destruct (db_raises env); cbn; [exact Hq | lia].
  - rewrite stop_eq. destruct (current_session_id s) as [v|];
      [destruct (v =? 0); [|destruct (db_raises env)]|]; cbn; exact Hq.
  - destruct (generate_iteration_frame getTextSize env detected s)
      as (_ & _ & _ & _ & [Hsame | [Hroom Hput]]).
    + rewrite Hsame. exact Hq.
    + rewrite Hput. unfold Queue.qsize in *. rewrite length_app. cbn [length]. lia.
  - destruct (capture_step_frame cam pc s) as (_ & _ & _ & _ & Hdq).
    cbv zeta in Hdq. rewrite Hdq. exact Hq.
  - rewrite event_stream_iteration_eq.
    destruct (negb (capturing s)); [exact Hq|].
    destruct (detection_queue s) as [|x rest] eqn:E;
      [cbn [snd]; rewrite E; exact Hq|].
    cbn in *. unfold Queue.qsize in *. cbn [length] in Hq. lia.
Qed.

(** X2. Starting with at most ten events pending, whatever the application
    does afterwards the event queue never holds more than ten. *)
Theorem detection_queue_never_overflows
  (getTextSize : Label -> Z * Z) (l : list Activity) (st : CapturePc * App) :
  Queue.qsize (detection_queue (snd st)) <= 10 ->
  Queue.qsize (detection_queue (snd (performs getTextSize l st))) <= 10.
Proof.
  intros Hq.
  apply (performs_invariant getTextSize
           (fun st => Queue.qsize (detection_queue (snd st)) <= 10));
    [apply perform_detection_queue | exact Hq].
Qed.

Lemma detection_queue_never_overflows_witness :
  let l :=
    [ Core (DoGenerate (mkEnv 1001 1001 false) (Val [sample_box 0]));
      Core (DoGenerate (mkEnv 1002 1002 false) (Val [])) ] in
  Queue.qsize
    (detection_queue
       (snd (performs sample_text_size l
               (Outer, watching None (pending_events 9) DB.init_db))))
  <= 10.
Proof.
  intros l.
  apply (detection_queue_never_overflows sample_text_size l
           (Outer, watching None (pending_events 9) DB.init_db)).
  cbn. lia.
Defined.

Lemma perform_counter
  (getTextSize : Label -> Z * Z) (x : Activity) (st : CapturePc * App) :
  counter_in_range (fst st) ->
  counter_in_range (fst (perform getTextSize x st)).
Proof.
  destruct st as [pc s]. cbn [fst]. intros H.
  destruct x as [[env | env | env detected | cam]|];
    cbn [perform act fst snd]; try exact H.
  destruct pc as [|n| |]; cbn [capture_step].
  - destruct (stop_event s); [exact I|].
    destruct (negb (capturing s)); [exact I|].
    destruct (negb (isOpened cam)); cbn; [exact I | lia].
  - destruct (negb (negb (stop_event s) && capturing s)); [exact I|].
    destruct (read cam) as [|f|]; [|..|exact I].
    + unfold failure_threshold.
      destruct (Z.ltb_spec 10 (n + 1)); cbn in *; [exact I | lia].
    + destruct (insert_frame (frame_queue s) f); cbn; [lia | exact I].
  - exact I.
  - exact I.
Qed.

(** X3. Once the failure counter is between 0 and 10 at the head of the
    inner loop (as it is when the loop is entered), it stays there: whatever
    the camera answers and whatever else the application does, the loop is
    never at its head with more than ten failures counted. *)
Theorem failure_counter_bounded
  (getTextSize : Label -> Z * Z) (l : list Activity) (st : CapturePc * App) :
  counter_in_range (fst st) ->
  counter_in_range (fst (performs getTextSize l st)).
Proof.
  intros H.
  apply (performs_invariant getTextSize (fun st => counter_in_range (fst st)));
    [apply perform_counter | exact H].
Qed.

Lemma failure_counter_bounded_witness :
  let failed := Core (DoCapture (mkCamera true ReadFailed)) in
  counter_in_range
    (fst (performs sample_text_size (repeat failed 25)
            (Outer, watching None [] DB.init_db))).
Proof.
  intros failed.
  apply (failure_counter_bounded sample_text_size (repeat failed 25)
           (Outer, watching None [] DB.init_db)).
  exact I.
Defined.

Lemma opens_app (ev1 ev2 : list CaptureEvent) :
  opens (ev1 ++ ev2) = opens ev1 + opens ev2.
Proof.
  unfold opens. rewrite filter_app, length_app. lia.
Qed.

Lemma releases_app (ev1 ev2 : list CaptureEvent) :
  releases (ev1 ++ ev2) = releases ev1 + releases ev2.
Proof.
  unfold releases. rewrite filter_app, length_app. lia.
Qed.

Lemma capture_step_balance (cam : Camera) (pc : CapturePc) (s : App) :
  let '(pc', _, ev) := capture_step cam pc s in
  releases ev + held pc' <= opens ev + held pc.
Proof.
  destruct pc as [|n| |]; cbn [capture_step].
  - destruct (stop_event s); [cbn; lia|].
    destruct (negb (capturing s)); [cbn; lia|].
    destruct (negb (isOpened cam)); cbn; lia.
  - destruct (negb (negb (stop_event s) && capturing s)); [cbn; lia|].
    destruct (read cam) as [|f|]; [| |cbn; lia].
    + destruct (failure_threshold <? n + 1); cbn; lia.
    + destruct (insert_frame (frame_queue s) f); cbn; lia.
  - cbn; lia.
  - cbn; lia.
Qed.

(** X4. The capture thread never releases a connection it does not hold:
    along any run of the application, the releases so far plus the
    connection held at the end never exceed the opens so far plus the
    connection held at the start. *)
Theorem releases_never_exceed_opens
  (getTextSize : Label -> Z * Z) (l : list Activity) (st : CapturePc * App) :
  releases (camera_trace getTextSize l st)
  + held (fst (performs getTextSize l st))
  <= opens (camera_trace getTextSize l st) + held (fst st).
Proof.
  revert st. induction l as [|x l IH]; intros st.
  - cbn. lia.
  - cbn [camera_trace performs fold_left].
    rewrite releases_app, opens_app.
    specialize (IH (perform getTextSize x st)). unfold performs in IH.
    assert (Hstep : releases (camera_events x st)
                    + held (fst (perform getTextSize x st))
                    <= opens (camera_events x st) + held (fst st)).
    { destruct st as [pc s].
      destruct x as [[env | env | env detected | cam]|];
        cbn [camera_events perform act fst snd]; try (cbn; lia).
      pose proof (capture_step_balance cam pc s) as Hb.
      destruct (capture_step cam pc s) as [[pc' s'] ev]. exact Hb. }
    lia.
Qed.

(** ** The event stream *)

Lemma set_detection_queue_same (s : App) :
  set_detection_queue (detection_queue s) s = s.
Proof. destruct s. reflexivity. Qed.

Lemma event_stream_capturing (n : nat) (s : App) :
  capturing s = true ->
  event_stream n s
  = (Val (map Data (firstn n (detection_queue s))
          ++ repeat Heartbeat (n - length (detection_queue s))),
     set_detection_queue (skipn n (detection_queue s)) s).
Proof.
  revert s. induction n as [|n IH]; intros s Hc.
  - cbn. rewrite set_detection_queue_same. reflexivity.
  - cbn [event_stream]. unfold bind at 1.
    rewrite event_stream_iteration_eq, Hc. cbn [negb].
    destruct (detection_queue s) as [|x rest] eqn:Eq.
    + unfold bind, ret. rewrite (IH s Hc), Eq.
      rewrite firstn_nil, !skipn_nil. cbn [length map app].
      rewrite Nat.sub_0_r. reflexivity.
    + unfold bind, ret. rewrite (IH (set_detection_queue rest s) Hc).
      reflexivity.
Qed.

Lemma event_stream_idle (n : nat) (s : App) :
  capturing s = false -> event_stream n s = (Val [], s).
Proof.
  intros Hc. induction n as [|n IH]; [reflexivity|].
  cbn [event_stream]. unfold bind at 1.
  rewrite event_stream_iteration_eq, Hc. exact IH.
Qed.

(** X5. A subscriber of [/detections] receives the pending events oldest
    first, each once: after [n] turns of the loop while capturing is on it
    has been sent the first [n] queued snapshots, one heartbeat for every
    turn that found the queue empty, and the queue holds what is left; while
    capturing is off it is sent nothing and the queue is not touched. *)
Theorem event_stream_delivers_in_order (n : nat) (s : App) :
  event_stream n s
  = if capturing s
    then (Val (map Data (firstn n (detection_queue s))
               ++ repeat Heartbeat (n - length (detection_queue s))),
          set_detection_queue (skipn n (detection_queue s)) s)
    else (Val [], s).
Proof.
  destruct (capturing s) eqn:Hc;
    [apply event_stream_capturing | apply event_stream_idle]; exact Hc.
Qed.

Lemma generate_iteration_publishes
  (getTextSize : Label -> Z * Z) (env : Env) (s : App)
  (f : Frame) (rest : list Frame) (boxes : list Box) (a : Annotated) :
  capturing s = true ->
  frame_queue s = f :: rest ->
  size f <> 0 ->
  annotate getTextSize f boxes = Val a ->
  changed a s = true ->
  Queue.qsize (detection_queue s) < 10 ->
  truthy (current_session_id s) && db_raises env = false ->
  let s' := snd (generate_iteration getTextSize env (Val boxes) s) in
  capturing s' = true
  /\ detection_queue s'
     = detection_queue s
       ++ [mkSnapshot (fire_count a) (smoke_count a) (now env)].
Proof.
  intros Hc Hq Hsize Ha Hch Hroom Hlog. cbv zeta.
  rewrite (generate_iteration_processed getTextSize env s f rest boxes a)
    by assumption.
  cbv zeta. rewrite Hch, log_if_session_eq.
  cbn [current_session_id set_current_detections set_frame_queue].
  assert (Hfull : (10 <=? Queue.qsize (detection_queue s)) = false)
    by (apply Z.leb_gt; exact Hroom).
  destruct (current_session_id s) as [v|]; cbn [truthy andb] in Hlog;
    [destruct (v =? 0); cbn [negb andb] in Hlog; [|rewrite Hlog]|];
    rewrite publish_eq, full_detection_queue; cbn; rewrite Hfull; cbn;
    (split; [exact Hc | reflexivity]).
Qed.

(** X6. A snapshot that [generate] publishes reaches the subscriber after
    the events already pending: once a frame with changed counts has been
    processed with room in the queue and the log append has not raised, a
    [/detections] response that runs one turn more than there were pending
    events is sent those events and then the new snapshot. *)
Theorem published_snapshot_reaches_subscriber
  (getTextSize : Label -> Z * Z) (env : Env) (s : App)
  (f : Frame) (rest : list Frame) (boxes : list Box) (a : Annotated) :
  capturing s = true ->
  frame_queue s = f :: rest ->
  size f <> 0 ->
  annotate getTextSize f boxes = Val a ->
  changed a s = true ->
  Queue.qsize (detection_queue s) < 10 ->
  truthy (current_session_id s) && db_raises env = false ->
  let s' := snd (generate_iteration getTextSize env (Val boxes) s) in
  fst (event_stream (S (length (detection_queue s))) s')
  = Val (map Data (detection_queue s)
         ++ [Data (mkSnapshot (fire_count a) (smoke_count a) (now env))]).
Proof.
  intros Hc Hq Hsize Ha Hch Hroom Hlog.
  destruct (generate_iteration_publishes getTextSize env s f rest boxes a
              Hc Hq Hsize Ha Hch Hroom Hlog) as [Hc' Hdq].
  cbv zeta in *. rewrite event_stream_capturing by exact Hc'.
  cbn [fst]. rewrite Hdq.
  rewrite firstn_all2 by (rewrite length_app; cbn [length]; lia).
  rewrite length_app. cbn [length].
  replace (S (length (detection_queue s)) - (length (detection_queue s) + 1))%nat
    with 0%nat by lia.
  cbn [repeat]. rewrite app_nil_r, map_app. reflexivity.
Qed.

Lemma published_snapshot_reaches_subscriber_witness :
  let s := watching None (pending_events 2) DB.init_db in
  let s' := snd (generate_iteration sample_text_size (mkEnv 1001 1001 false)
                   (Val [sample_box 3]) s) in
  fst (event_stream 3 s')
  = Val [Data (mkSnapshot 1 0 1); Data (mkSnapshot 2 0 2);
         Data (mkSnapshot 0 1 1001)].
Proof.
  intros s s'.
  refine (published_snapshot_reaches_subscriber sample_text_size
            (mkEnv 1001 1001 false) s (camera_frame 1) [camera_frame 2]
            [sample_box 3]
            (mkAnnotated 0 1
               (draw (box_ops sample_text_size (sample_box 3)
                        "smoke" (128, 128, 128)) (camera_frame 1)))
            eq_refl eq_refl _ eq_refl eq_refl _ eq_refl).
  - discriminate.
  - cbn. lia.
Defined.

(** ** Annotation: bounds, overlays and out-of-range classes *)

Section MoreAnnotationFacts.
Variable getTextSize : Label -> Z * Z.

Lemma box_ops_length (b : Box) (name : string) (color : Color) :
  length (box_ops getTextSize b name color) = 3%nat.
Proof.
  unfold box_ops. destruct (xyxy b) as [[[x1 y1] x2] y2]. reflexivity.
Qed.

Lemma annotate_box_effect (a a' : Annotated) (b : Box) :
  annotate_box getTextSize a b = Val a' ->
  fire_count a <= fire_count a'
  /\ smoke_count a <= smoke_count a'
  /\ fire_count a' + smoke_count a'
     <= fire_count a + smoke_count a + 1
  /\ image (frame a') = image (frame a)
  /\ size (frame a') = size (frame a)
  /\ exists ops,
       overlay (frame a') = overlay (frame a) ++ ops
       /\ length ops = if ignored b then 0%nat else 3%nat.
Proof.
  unfold annotate_box, ignored.
  destruct ((cls b =? 2) || (cls b =? 1)).
  - intros H. injection H as <-.
    repeat (split; [lia || reflexivity|]).
    exists []. rewrite app_nil_r. split; reflexivity.
  - destruct (py_index classes (cls b)) as [name|e]; [|discriminate].
    destruct (py_index colors (cls b)) as [color|e]; [|discriminate].
    intros H. injection H as <-. cbn [fire_count smoke_count frame].
    destruct (cls b =? 0); [|destruct (cls b =? 3)];
      (repeat (split; [lia || reflexivity|]);
       eexists; split; [reflexivity | apply box_ops_length]).
Qed.

Lemma annotate_boxes_effect (boxes : list Box) (a a' : Annotated) :
  annotate_boxes getTextSize a boxes = Val a' ->
  fire_count a <= fire_count a'
  /\ smoke_count a <= smoke_count a'
  /\ fire_count a' + smoke_count a'
     <= fire_count a + smoke_count a + Z.of_nat (length boxes)
  /\ image (frame a') = image (frame a)
  /\ size (frame a') = size (frame a)
  /\ exists ops,
       overlay (frame a') = overlay (frame a) ++ ops
       /\ length ops
          = (3 * length (filter (fun b => negb (ignored b)) boxes))%nat.
Proof.
  revert a. induction boxes as [|b boxes IH]; intros a H.
  - cbn in H. injection H as <-. cbn [length filter].
    repeat (split; [lia || reflexivity|]).
    exists []. rewrite app_nil_r. split; reflexivity.
  - cbn [annotate_boxes] in H.
    destruct (annotate_box getTextSize a b) as [a1|e] eqn:E1; [|discriminate].
    destruct (annotate_box_effect a a1 b E1)
      as (F1 & S1 & B1 & I1 & Z1 & ops1 & O1 & L1).
    destruct (IH a1 H) as (F2 & S2 & B2 & I2 & Z2 & ops2 & O2 & L2).
    cbn [length filter]. rewrite Nat2Z.inj_succ.
    repeat (split; [lia || congruence|]).
    exists (ops1 ++ ops2). split.
    + rewrite O2, O1, app_assoc. reflexivity.
    + rewrite length_app, L1, L2.
      destruct (ignored b); cbn [negb length]; lia.
Qed.

Lemma py_index_out_of_range {A : Type} (l : list A) (i : Z) :
  i < - Z.of_nat (length l) \/ Z.of_nat (length l) <= i ->
  py_index l i = Exn IndexError.
Proof.
  intros H. unfold py_index.
  destruct (Z.ltb_spec i 0).
  - destruct (Z.leb_spec 0 (i + Z.of_nat (length l))); [lia | reflexivity].
  - destruct (Z.leb_spec 0 i); [|reflexivity].
    destruct (Z.ltb_spec i (Z.of_nat (length l))); [lia | reflexivity].
Qed.

Lemma annotate_box_raises_index_error (a : Annotated) (b : Box) (e : exn) :
  annotate_box getTextSize a b = Exn e -> e = IndexError.
Proof.
  unfold annotate_box, py_index.
  destruct ((cls b =? 2) || (cls b =? 1)); [discriminate|].
  repeat match goal with
         | |- context [if ?c then _ else _] => destruct c
         | |- context [match nth_error ?l ?n with _ => _ end] =>
             destruct (nth_error l n)
         end; intros H; congruence.
Qed.

Lemma annotate_boxes_out_of_range (boxes : list Box) (a : Annotated) (b : Box) :
  In b boxes ->
  cls b < -4 \/ 3 < cls b ->
  annotate_boxes getTextSize a boxes = Exn IndexError.
Proof.
  revert a. induction boxes as [|b0 boxes IH]; intros a Hin Hcls;
    [contradiction|].
  cbn [annotate_boxes].
  destruct (annotate_box getTextSize a b0) as [a1|e] eqn:E.
  - destruct Hin as [-> | Hin]; [|apply IH; assumption].
    exfalso. unfold annotate_box in E.
    replace ((cls b =? 2) || (cls b =? 1)) with false in E
      by (symmetry; apply orb_false_iff; split; apply Z.eqb_neq; lia).
    rewrite (py_index_out_of_range classes (cls b)) in E by (cbn; lia).
    discriminate.
  - apply annotate_box_raises_index_error in E. rewrite E. reflexivity.
Qed.
End MoreAnnotationFacts.

(** X7. The counts of an annotated frame are never negative and between
    them never exceed the number of detections the detector returned. *)
Theorem counts_bounded_by_detections
  (getTextSize : Label -> Z * Z) (f : Frame) (boxes : list Box) (a : Annotated) :
  annotate getTextSize f boxes = Val a ->
  0 <= fire_count a
  /\ 0 <= smoke_count a
  /\ fire_count a + smoke_count a <= Z.of_nat (length boxes).
Proof.
  intros H. unfold annotate in H.
  destruct (annotate_boxes_effect getTextSize boxes _ a H)
    as (F & S & B & _). cbn in *. lia.
Qed.

Lemma counts_bounded_by_detections_witness :
  let boxes := [sample_box 0; sample_box 1; sample_box 3; sample_box 0] in
  exists a,
    annotate sample_text_size (camera_frame 1) boxes = Val a
    /\ 0 <= fire_count a
    /\ 0 <= smoke_count a
    /\ fire_count a + smoke_count a <= 4.
Proof.
  intros boxes. eexists. split; [reflexivity|].
  exact (counts_bounded_by_detections sample_text_size (camera_frame 1) boxes
           _ eq_refl).
Defined.

(** X8. Annotation only adds to a frame: the image and its size are the
    ones read from the camera, what was drawn before stays, and exactly
    three drawing calls (box, label background, label text) are added for
    each detection whose class is not 1 or 2. *)
Theorem annotation_only_adds_overlay
  (getTextSize : Label -> Z * Z) (f : Frame) (boxes : list Box) (a : Annotated) :
  annotate getTextSize f boxes = Val a ->
  image (frame a) = image f
  /\ size (frame a) = size f
  /\ exists ops,
       overlay (frame a) = overlay f ++ ops
       /\ length ops
          = (3 * length (filter (fun b => negb (ignored b)) boxes))%nat.
Proof.
  intros H. unfold annotate in H.
  destruct (annotate_boxes_effect getTextSize boxes _ a H)
    as (_ & _ & _ & I & Z & O). cbn in *. auto.
Qed.

Lemma annotation_only_adds_overlay_witness :
  let boxes := [sample_box 0; sample_box 1; sample_box 3] in
  exists a,
    annotate sample_text_size (camera_frame 1) boxes = Val a
    /\ image (frame a) = 1%nat
    /\ length (overlay (frame a)) = 6%nat.
Proof.
  intros boxes. eexists. split; [reflexivity|].
  destruct (annotation_only_adds_overlay sample_text_size (camera_frame 1)
              boxes _ eq_refl) as (Hi & _ & ops & Ho & Hl).
  split; [exact Hi|]. rewrite Ho, length_app, Hl. reflexivity.
Defined.

(** X9. One detection whose class is outside the range that [classes]
    accepts as an index (below -4 or above 3) makes the overlay code raise
    IndexError, and the loop then drops the whole frame: the frame is taken
    from the buffer, nothing is yielded, and the snapshot, the log and the
    event queue are left as they were, whatever the other detections of
    the frame were. *)
Theorem out_of_range_class_drops_frame
  (getTextSize : Label -> Z * Z) (env : Env) (s : App)
  (f : Frame) (rest : list Frame) (boxes : list Box) (b : Box) :
  capturing s = true ->
  frame_queue s = f :: rest ->
  size f <> 0 ->
  In b boxes ->
  cls b < -4 \/ 3 < cls b ->
  annotate getTextSize f boxes = Exn IndexError
  /\ generate_iteration getTextSize env (Val boxes) s
     = (Val None, set_frame_queue rest s).
Proof.
  intros Hc Hq Hsize Hin Hcls.
  assert (Ha : annotate getTextSize f boxes = Exn IndexError)
    by (apply annotate_boxes_out_of_range with (b := b); assumption).
  split; [exact Ha|].
  rewrite generate_iteration_eq, Hc, Hq. cbv zeta.
  apply Z.eqb_neq in Hsize. rewrite Hsize, Ha. reflexivity.
Qed.

Lemma out_of_range_class_drops_frame_witness :
  let s := watching (Some 1) [] one_session in
  generate_iteration sample_text_size (mkEnv 1001 1002 false)
    (Val [sample_box 0; sample_box 4; sample_box 3]) s
  = (Val None, set_frame_queue [camera_frame 2] s).
Proof.
  intros s.
  refine (proj2 (out_of_range_class_drops_frame sample_text_size
                   (mkEnv 1001 1002 false) s (camera_frame 1) [camera_frame 2]
                   [sample_box 0; sample_box 4; sample_box 3] (sample_box 4)
                   eq_refl eq_refl _ _ _)).
  - discriminate.
  - right. left. reflexivity.
  - right. cbn. lia.
Defined.

(** ** The video response and the buffer *)

Lemma annotate_keeps_image
  (getTextSize : Label -> Z * Z) (f : Frame) (boxes : list Box) (a : Annotated) :
  annotate getTextSize f boxes = Val a -> image (frame a) = image f.
Proof.
  intros H. unfold annotate in H.
  destruct (annotate_boxes_effect getTextSize boxes _ a H)
    as (_ & _ & _ & I & _). exact I.
Qed.

Lemma generate_iteration_yield
  (getTextSize : Label -> Z * Z) (env : Env) (detected : res (list Box)) (s : App) :
  exists y,
    fst (generate_iteration getTextSize env detected s) = Val y
    /\ (length (frame_queue (snd (generate_iteration getTextSize env detected s)))
        + match y with Some _ => 1 | None => 0 end
        <= length (frame_queue s))%nat
    /\ forall fr, y = Some fr ->
         exists f rest,
           frame_queue s = f :: rest
           /\ frame_queue (snd (generate_iteration getTextSize env detected s))
              = rest
           /\ image fr = image f.
Proof.
  rewrite generate_iteration_eq.
  destruct (negb (capturing s));
    [exists None; cbn; repeat split; [lia | discriminate]|].
  destruct (frame_queue s) as [|f rest] eqn:Eq;
    [exists None; cbn; rewrite Eq; repeat split; [cbn; lia | discriminate]|].
  cbv zeta.
  destruct (size f =? 0);
    [exists None; cbn; repeat split; [lia | discriminate]|].
  destruct detected as [boxes|e];
    [|exists None; cbn; repeat split; [lia | discriminate]].
  destruct (annotate getTextSize f boxes) as [a|e] eqn:Ea;
    [|exists None; cbn; repeat split; [lia | discriminate]].
  pose proof (annotate_keeps_image getTextSize f boxes a Ea) as Hi.
  destruct (changed a s).
  - rewrite log_if_session_eq.
    cbn [current_session_id set_current_detections set_frame_queue].
    destruct (current_session_id s) as [v|];
      [destruct (v =? 0); [|destruct (db_raises env)]|];
      try rewrite publish_eq; cbn [fst snd];
      try (match goal with
           | |- context [Queue.full ?m ?q] => destruct (Queue.full m q)
           end);
      first [ exists None; cbn; repeat split; [lia | discriminate]
            | exists (Some (frame a)); cbn; repeat split; [lia|];
              intros fr Hfr; injection Hfr as <-;
              exists f, rest; repeat split; exact Hi ].
  - exists (Some (frame a)). cbn. repeat split; [lia|].
    intros fr Hfr. injection Hfr as <-. exists f, rest. repeat split. exact Hi.
Qed.

(** X10. A [/video] response never ends in an exception, whatever the
    detector, the store and the overlay code do, and it yields at most one
    image for each frame it takes from the buffer. *)
Theorem video_response_never_raises
  (getTextSize : Label -> Z * Z) (run : list (Env * res (list Box))) (s : App) :
  exists frames,
    fst (generate getTextSize run s) = Val frames
    /\ (length frames <= length run)%nat
    /\ (length (frame_queue (snd (generate getTextSize run s))) + length frames
        <= length (frame_queue s))%nat.
Proof.
  revert s. induction run as [|[env detected] run IH]; intros s.
  - exists []. cbn. repeat split; lia.
  - destruct (generate_iteration_yield getTextSize env detected s)
      as (y & Hy & Hlen & _).
    cbn [generate]. unfold bind, ret.
    destruct (generate_iteration getTextSize env detected s) as [r s1].
    cbn [fst snd] in *. subst r.
    destruct (IH s1) as (frames & Hf & Hn & Hq).
    destruct (generate getTextSize run s1) as [r2 s2].
    cbn [fst snd] in *. subst r2.
    exists (match y with Some f => f :: frames | None => frames end).
    cbn [fst snd length]. destruct y; cbn [length] in *; repeat split; lia.
Qed.

Lemma generate_iteration_consumes
  (getTextSize : Label -> Z * Z) (env : Env) (detected : res (list Box))
  (s : App) (f : Frame) (rest : list Frame) :
  capturing s = true ->
  frame_queue s = f :: rest ->
  frame_queue (snd (generate_iteration getTextSize env detected s)) = rest.
Proof.
  intros Hc Hq. rewrite generate_iteration_eq, Hc, Hq. cbv zeta. cbn [negb].
  destruct (size f =? 0); [reflexivity|].
  destruct detected as [boxes|e]; [|reflexivity].
  destruct (annotate getTextSize f boxes) as [a|e]; [|reflexivity].
  destruct (changed a s); [|reflexivity].
  rewrite log_if_session_eq.
  cbn [current_session_id set_current_detections set_frame_queue].
  destruct (current_session_id s) as [v|];
    [destruct (v =? 0); [|destruct (db_raises env); [reflexivity|]]|];
    rewrite publish_eq; cbn [snd];
    match goal with |- context [if ?c then _ else _] => destruct c end;
    reflexivity.
Qed.

Lemma capture_run_frames (cams : list Camera) (fs : list Frame) :
  Forall2 (fun cam f => read cam = ReadFrame f) cams fs ->
  forall (n : Z) (s : App),
    stop_event s = false ->
    capturing s = true ->
    (length (frame_queue s) <= 2)%nat ->
    let s' := snd (fst (capture_run cams (Inner n) s)) in
    frame_queue s' = lastn 2 (frame_queue s ++ fs)
    /\ capturing s' = true.
Proof.
  induction 1 as [|cam f cams fs Hcam Hrest IH]; intros n s Hstop Hcap Hq.
  - cbn. rewrite app_nil_r, lastn_short by exact Hq. auto.
  - cbn [capture_run capture_step]. rewrite Hstop, Hcap, Hcam.
    cbn [negb andb]. rewrite insert_frame_keeps_two by exact Hq.
    specialize (IH 0 (set_frame_queue (lastn 2 (frame_queue s ++ [f])) s)
                  Hstop Hcap (lastn_length 2 _)).
    cbv zeta in IH. cbn [frame_queue set_frame_queue] in IH.
    destruct (capture_run cams (Inner 0)
                (set_frame_queue (lastn 2 (frame_queue s ++ [f])) s))
      as [[pc' s'] ev].
    cbn [fst snd] in *. destruct IH as [IHq IHc].
    rewrite IHq, lastn_step by exact Hq. auto.
Qed.

(** X11. The annotation loop takes frames in arrival order: after the
    capture thread has read two or more frames in a row with nobody
    consuming, the buffer holds the last two, and the next iteration of
    [generate] works on the older of them (the image it yields, if any, is
    that one) and leaves the newest in the buffer. *)
Theorem generate_takes_older_of_two
  (getTextSize : Label -> Z * Z) (cams : list Camera)
  (front : list Frame) (older newest : Frame) (n : Z) (s : App)
  (env : Env) (detected : res (list Box)) :
  stop_event s = false ->
  capturing s = true ->
  (length (frame_queue s) <= 2)%nat ->
  Forall2 (fun cam f => read cam = ReadFrame f) cams
          (front ++ [older; newest]) ->
  let s' := snd (fst (capture_run cams (Inner n) s)) in
  let r := generate_iteration getTextSize env detected s' in
  frame_queue s' = [older; newest]
  /\ frame_queue (snd r) = [newest]
  /\ forall fr, fst r = Val (Some fr) -> image fr = image older.
Proof.
  intros Hstop Hcap Hq Hreads. cbv zeta.
  destruct (capture_run_frames cams _ Hreads n s Hstop Hcap Hq) as [Hfq Hc'].
  cbv zeta in Hfq, Hc'.
  rewrite app_assoc, lastn_app_long in Hfq by (cbn; lia).
  change (lastn 2 [older; newest]) with [older; newest] in Hfq.
  set (s' := snd (fst (capture_run cams (Inner n) s))) in *.
  split; [exact Hfq|].
  split; [apply (generate_iteration_consumes getTextSize env detected s'
                   older [newest] Hc' Hfq)|].
  intros fr Hfr.
  destruct (generate_iteration_yield getTextSize env detected s')
    as (y & Hy & _ & Himg).
  rewrite Hy in Hfr. injection Hfr as ->.
  destruct (Himg fr eq_refl) as (f & rest & Hf & _ & Hi).
  rewrite Hfq in Hf. injection Hf as <- _. exact Hi.
Qed.

Lemma generate_takes_older_of_two_witness :
  let cams :=
    map (fun k => mkCamera true (ReadFrame (camera_frame k))) [3; 4; 5]%nat in
  let s := watching None [] DB.init_db in
  let s' := snd (fst (capture_run cams (Inner 0) s)) in
  let r := generate_iteration sample_text_size (mkEnv 1001 1001 false)
             (Val []) s' in
  frame_queue s' = [camera_frame 4; camera_frame 5]
  /\ frame_queue (snd r) = [camera_frame 5]
  /\ fst r = Val (Some (camera_frame 4)).
Proof.
  intros cams s s' r.
  destruct (generate_takes_older_of_two sample_text_size cams
              [camera_frame 3] (camera_frame 4) (camera_frame 5) 0 s
              (mkEnv 1001 1001 false) (Val []) eq_refl eq_refl (Nat.le_refl 2))
    as (H1 & H2 & _).
  - repeat constructor.
  - split; [exact H1|]. split; [exact H2 | reflexivity].
Defined.

(** ** Sessions over the life of the application *)

Lemma closed_rows_ext (d d' : DB.t) :
  DB.detection_sessions d' = DB.detection_sessions d ->
  DB.detection_logs d' = DB.detection_logs d ->
  closed_rows_consistent d -> closed_rows_consistent d'.
Proof.
  unfold closed_rows_consistent, DB.logs_of. intros -> ->. auto.
Qed.

Lemma consistent_ext (s s' : App) :
  DB.detection_sessions (db s') = DB.detection_sessions (db s) ->
  DB.detection_logs (db s') = DB.detection_logs (db s) ->
  current_session_id s' = current_session_id s ->
  consistent s -> consistent s'.
Proof.
  intros Hs Hl Hc (H1 & H2 & H3). split; [|split].
  - apply (closed_rows_ext (db s)); assumption.
  - unfold references_sessions in *. rewrite Hs, Hl. exact H2.
  - unfold current_session_open in *. rewrite Hs, Hc. exact H3.
Qed.

Lemma logs_of_snoc (sid : Z) (d : DB.t) (l : DB.LogRow) (seq : Z) :
  DB.logs_of sid
    (DB.mk (DB.detection_sessions d) (DB.sessions_seq d)
           (DB.detection_logs d ++ [l]) seq)
  = DB.logs_of sid d
    ++ (if DB.session_id l =? sid then [l] else []).
Proof.
  unfold DB.logs_of. cbn [DB.detection_logs]. rewrite filter_app. reflexivity.
Qed.

Lemma start_consistent (now : Z) (s : App) (c e : bool) (cur : Snapshot)
  (fq : list Frame) (dq : list Snapshot) :
  consistent s ->
  consistent
    (mkApp c e cur (Some (fst (DB.start_session now (db s)))) fq dq
           (snd (DB.start_session now (db s)))).
Proof.
  intros (H1 & H2 & H3).
  pose proof (next_rowid_above (DB.sessions_seq (db s))
                (map DB.id (DB.detection_sessions (db s)))) as [_ Hfresh].
  unfold consistent, closed_rows_consistent, references_sessions,
    current_session_open in *.
  cbn [db current_session_id DB.start_session fst snd DB.detection_sessions
       DB.detection_logs].
  split; [|split].
  - apply Forall_app. split.
    + eapply Forall_impl; [|exact H1]. cbn. intros row Hrow. exact Hrow.
    + constructor; [|constructor]. cbn. discriminate.
  - eapply Forall_impl; [|exact H2]. cbn. intros l Hl.
    rewrite map_app. apply in_or_app. left. exact Hl.
  - intros v Hv. injection Hv as <-. split.
    + rewrite map_app. apply in_or_app. right. left. reflexivity.
    + apply Forall_app. split.
      * rewrite Forall_map in Hfresh.
        eapply Forall_impl; [|exact Hfresh]. cbn. intros row Hlt Heq. lia.
      * constructor; [|constructor]. reflexivity.
Qed.

Lemma end_session_consistent (v now : Z) (s : App) (c e : bool) (cur : Snapshot)
  (fq : list Frame) (dq : list Snapshot) :
  consistent s ->
  consistent (mkApp c e cur None fq dq (DB.end_session v now (db s))).
Proof.
  intros (H1 & H2 & H3).
  unfold consistent, closed_rows_consistent, references_sessions,
    current_session_open in *.
  cbn [db current_session_id].
  split; [|split].
  - unfold DB.end_session. cbn [DB.detection_sessions].
    rewrite Forall_map. eapply Forall_impl; [|exact H1].
    cbn beta. intros row Hrow. rewrite !py_or0_sql_sum.
    unfold DB.close_row.
    destruct (Z.eqb_spec (DB.id row) v) as [Hid | Hid].
    + intros _. cbn [DB.id DB.total_fire_detections DB.total_smoke_detections].
      rewrite Hid. split; reflexivity.
    + exact Hrow.
  - unfold DB.end_session. cbn [DB.detection_sessions DB.detection_logs].
    rewrite map_map.
    rewrite (map_ext _ DB.id) by (intros row; apply close_row_id).
    exact H2.
  - discriminate.
Qed.

Lemma log_consistent (s : App) (v rowid now fc sc : Z) (alert : bool) (s' : App) :
  consistent s ->
  current_session_id s = Some v ->
  current_session_id s' = Some v ->
  DB.detection_sessions (db s') = DB.detection_sessions (db s) ->
  DB.detection_logs (db s')
  = DB.detection_logs (db s) ++ [DB.mkLog rowid v now fc sc alert] ->
  consistent s'.
Proof.
  intros (H1 & H2 & H3) Hv Hv' Hs Hl.
  destruct (H3 v Hv) as [Hin Hactive].
  unfold consistent, closed_rows_consistent, references_sessions,
    current_session_open in *.
  rewrite Hs, Hl, Hv'. split; [|split].
  - rewrite Forall_forall in *. intros row Hrow Hdone.
    assert (Hneq : DB.id row <> v).
    { intros Heq. specialize (Hactive row Hrow Heq). congruence. }
    destruct (H1 row Hrow Hdone) as [Hf Hm].
    unfold DB.logs_of in *. rewrite Hl, filter_app. cbn [filter DB.session_id].
    destruct (Z.eqb_spec v (DB.id row)); [congruence|].
    rewrite app_nil_r. auto.
  - apply Forall_app. split; [exact H2|].
    constructor; [exact Hin | constructor].
  - intros v0 Hv0. injection Hv0 as <-. auto.
Qed.

Lemma perform_consistent
  (getTextSize : Label -> Z * Z) (x : Activity) (st : CapturePc * App) :
  consistent (snd st) -> consistent (snd (perform getTextSize x st)).
Proof.
  destruct st as [pc s]. cbn [snd]. intros H.
  destruct x as [[env | env | env detected | cam]|]; cbn [perform act fst snd].
  - rewrite start_eq. destruct (db_raises env); cbn [snd].
    + apply (consistent_ext s); [reflexivity..|exact H].
    + apply start_consistent, H.
  - rewrite stop_eq.
    destruct (current_session_id s) as [v|] eqn:Es;
      [destruct (v =? 0); [|destruct (db_raises env)]|]; cbn [snd].
    + apply (consistent_ext s); [reflexivity | reflexivity | | exact H].
      cbn. symmetry. exact Es.
    + apply (consistent_ext s); [reflexivity..|exact H].
    + apply end_session_consistent, H.
    + apply (consistent_ext s); [reflexivity | reflexivity | | exact H].
      cbn. symmetry. exact Es.
  - pose proof (generate_iteration_sessions getTextSize env detected s) as Hs.
    destruct (generate_iteration_frame getTextSize env detected s)
      as (_ & _ & Hcur & _).
    destruct (generate_iteration_logs getTextSize env detected s)
      as [Hsame | (f & rest & boxes & a & v & rowid & _ & _ & _ & Hv & Hlogs)].
    + apply (consistent_ext s); assumption.
    + cbv zeta in *.
      apply (log_consistent s v rowid (db_now env) (fire_count a)
               (smoke_count a) (alert_of (fire_count a) (smoke_count a)));
        try assumption. rewrite Hcur. exact Hv.
  - destruct (capture_step_frame cam pc s) as (_ & _ & Hcur & _).
    pose proof (capture_step_db cam pc s) as Hdb. cbv zeta in *.
    apply (consistent_ext s); try rewrite Hdb; try reflexivity; assumption.
  - rewrite event_stream_iteration_eq.
    destruct (negb (capturing s)); [exact H|].
    destruct (detection_queue s); [exact H|].
    apply (consistent_ext s); [reflexivity..|exact H].
Qed.

Lemma initial_consistent (now : Z) : consistent (initial now DB.init_db).
Proof.
  split; [constructor | split; [constructor | discriminate]].
Qed.

(** X12. Finalised totals stay right: if every completed session carries the
    sums of its log rows, every log row names a session that exists, and
    the current session is active (all true of a fresh install), then
    whatever the application does afterwards every completed session still
    carries the sums of its log rows: no log row is ever added to a
    session after it was closed. *)
Theorem completed_sessions_keep_totals
  (getTextSize : Label -> Z * Z) (l : list Activity) (st : CapturePc * App) :
  consistent (snd st) ->
  closed_rows_consistent (db (snd (performs getTextSize l st))).
Proof.
  intros H.
  apply (performs_invariant getTextSize (fun st => consistent (snd st))
           (perform_consistent getTextSize) l st H).
Qed.

Lemma completed_sessions_keep_totals_witness :
  let ok := fun t => mkEnv t t false in
  let l :=
    [ Core (DoStart (ok 1000));
      Core (DoCapture (mkCamera true (ReadFrame (camera_frame 1))));
      Core (DoCapture (mkCamera true (ReadFrame (camera_frame 2))));
      Core (DoGenerate (ok 1001) (Val [sample_box 0; sample_box 3]));
      Core (DoStop (ok 1002));
      Core (DoStart (ok 1003));
      Core (DoGenerate (ok 1004) (Val [sample_box 0])) ] in
  closed_rows_consistent
    (db (snd (performs sample_text_size l (Outer, initial 0 DB.init_db)))).
Proof.
  intros ok l.
  apply (completed_sessions_keep_totals sample_text_size l
           (Outer, initial 0 DB.init_db)).
  apply initial_consistent.
Defined.

(** X13. Under the same conditions, whatever the application does every
    log row names a session that has a row, and the current session, the
    only one log rows are written for, has a row and is active. *)
Theorem log_rows_reference_sessions
  (getTextSize : Label -> Z * Z) (l : list Activity) (st : CapturePc * App) :
  consistent (snd st) ->
  references_sessions (db (snd (performs getTextSize l st)))
  /\ current_session_open (snd (performs getTextSize l st)).
Proof.
  intros H.
  apply (performs_invariant getTextSize (fun st => consistent (snd st))
           (perform_consistent getTextSize) l st H).
Qed.

Lemma log_rows_reference_sessions_witness :
  let ok := fun t => mkEnv t t false in
  let l :=
    [ Core (DoStart (ok 1000));
      Core (DoCapture (mkCamera true (ReadFrame (camera_frame 1))));
      Core (DoGenerate (ok 1001) (Val [sample_box 0; sample_box 3])) ] in
  let s := snd (performs sample_text_size l (Outer, initial 0 DB.init_db)) in
  references_sessions (db s) /\ current_session_open s.
Proof.
  intros ok l s.
  apply (log_rows_reference_sessions sample_text_size l
           (Outer, initial 0 DB.init_db)).
  apply initial_consistent.
Defined.

Lemma session_ext (sid : Z) (d d' : DB.t) :
  DB.detection_sessions d' = DB.detection_sessions d ->
  DB.session sid d' = DB.session sid d.
Proof. unfold DB.session. intros ->. reflexivity. Qed.

Lemma close_row_other (sid v now tf ts : Z) (r : DB.SessionRow) :
  DB.id r = sid -> v <> sid -> DB.close_row v now tf ts r = r.
Proof.
  intros Hid Hneq. unfold DB.close_row.
  destruct (Z.eqb_spec (DB.id r) v); [congruence | reflexivity].
Qed.

Lemma session_id_of (sid : Z) (d : DB.t) (r : DB.SessionRow) :
  DB.session sid d = Some r -> DB.id r = sid.
Proof.
  unfold DB.session. intros H. apply find_some in H.
  destruct H as [_ H]. apply Z.eqb_eq, H.
Qed.

Lemma perform_keeps_other_session
  (getTextSize : Label -> Z * Z) (x : Activity) (st : CapturePc * App)
  (sid : Z) (r : DB.SessionRow) :
  DB.session sid (db (snd st)) = Some r
  /\ current_session_id (snd st) <> Some sid ->
  DB.session sid (db (snd (perform getTextSize x st))) = Some r
  /\ current_session_id (snd (perform getTextSize x st)) <> Some sid.
Proof.
  destruct st as [pc s]. cbn [snd]. intros [Hr Hcur].
  destruct x as [[env | env | env detected | cam]|]; cbn [perform act fst snd].
  - rewrite start_eq. destruct (db_raises env); cbn [snd]; [auto|].
    pose proof (session_after_start (db_now env) (db s)) as Hnew.
    destruct (DB.start_session (db_now env) (db s)) as [sid' d'] eqn:E.
    destruct Hnew as [_ Hfresh]. cbn [fst snd db current_session_id]. split.
    + assert (Hd : d' = snd (DB.start_session (db_now env) (db s)))
        by (rewrite E; reflexivity).
      rewrite Hd. unfold DB.session in *. cbn. apply find_app_some, Hr.
    + intros Heq. injection Heq as ->. congruence.
  - rewrite stop_eq.
    destruct (current_session_id s) as [v|] eqn:Es;
      [destruct (v =? 0); [|destruct (db_raises env)]|]; cbn [snd];
      try (cbn; split; [exact Hr | first [exact Hcur | discriminate]]).
    + cbn. rewrite Es. auto.
    + cbn [db current_session_id]. split; [|discriminate].
      unfold DB.session, DB.end_session. cbn [DB.detection_sessions].
      rewrite find_close_row. fold (DB.session sid (db s)). rewrite Hr.
      cbn [option_map]. f_equal.
      apply close_row_other with (sid := sid);
        [apply (session_id_of sid (db s)), Hr | congruence].
  - destruct (generate_iteration_frame getTextSize env detected s)
      as (_ & _ & Hc & _). cbv zeta in Hc.
    rewrite Hc. split; [|exact Hcur].
    rewrite (session_ext sid (db s)); [exact Hr|].
    apply generate_iteration_sessions.
  - destruct (capture_step_frame cam pc s) as (_ & _ & Hc & _).
    cbv zeta in Hc. rewrite Hc, capture_step_db. auto.
  - rewrite event_stream_iteration_eq.
    destruct (negb (capturing s)); [auto|].
    destruct (detection_queue s); auto.
Qed.

(** X14. The application only ever changes the row of the current session:
    a session that is not the current one (in particular one superseded by a
    second [/start]) keeps its row as it is, whatever requests and loop
    iterations follow; if it was active it is never closed. *)
Theorem other_sessions_never_touched
  (getTextSize : Label -> Z * Z) (l : list Activity) (st : CapturePc * App)
  (sid : Z) (r : DB.SessionRow) :
  DB.session sid (db (snd st)) = Some r ->
  current_session_id (snd st) <> Some sid ->
  DB.session sid (db (snd (performs getTextSize l st))) = Some r.
Proof.
  intros Hr Hcur.
  apply (performs_invariant getTextSize
           (fun st => DB.session sid (db (snd st)) = Some r
                      /\ current_session_id (snd st) <> Some sid));
    [intros x st'; apply perform_keeps_other_session | auto].
Qed.

Lemma other_sessions_never_touched_witness :
  let ok := fun t => mkEnv t t false in
  let s := snd (start (ok 2000) (snd (start (ok 1000) (initial 0 DB.init_db)))) in
  let l :=
    [ Core (DoCapture (mkCamera true (ReadFrame (camera_frame 1))));
      Core (DoGenerate (ok 2001) (Val [sample_box 0]));
      Core (DoStop (ok 2002));
      Core (DoStop (ok 2003));
      Core (DoStart (ok 2004));
      Core (DoStop (ok 2005)) ] in
  DB.session 1 (db (snd (performs sample_text_size l (Outer, s))))
  = Some (DB.mkSession 1 1000 None 0 0 "active").
Proof.
  intros ok s l.
  apply (other_sessions_never_touched sample_text_size l (Outer, s) 1);
    [reflexivity | discriminate].
Defined.

Lemma perform_between_requests
  (getTextSize : Label -> Z * Z) (x : Activity) (st : CapturePc * App) :
  is_session_request x = false ->
  current_session_id (snd (perform getTextSize x st))
  = current_session_id (snd st)
  /\ DB.detection_sessions (db (snd (perform getTextSize x st)))
     = DB.detection_sessions (db (snd st)).
Proof.
  destruct st as [pc s]. cbn [snd].
  destruct x as [[env | env | env detected | cam]|];
    cbn [is_session_request perform act fst snd]; try discriminate; intros _.
  - destruct (generate_iteration_frame getTextSize env detected s)
      as (_ & _ & Hc & _).
    split; [exact Hc | apply generate_iteration_sessions].
  - destruct (capture_step_frame cam pc s) as (_ & _ & Hc & _).
    split; [exact Hc | rewrite capture_step_db; reflexivity].
  - rewrite event_stream_iteration_eq.
    destruct (negb (capturing s)); [auto|].
    destruct (detection_queue s); auto.
Qed.

Lemma performs_between_requests
  (getTextSize : Label -> Z * Z) (l : list Activity) (st : CapturePc * App) :
  forallb (fun x => negb (is_session_request x)) l = true ->
  current_session_id (snd (performs getTextSize l st))
  = current_session_id (snd st)
  /\ DB.detection_sessions (db (snd (performs getTextSize l st)))
     = DB.detection_sessions (db (snd st)).
Proof.
  revert st. induction l as [|x l IH]; intros st Hl; [auto|].
  cbn [forallb] in Hl. apply andb_prop in Hl. destruct Hl as [Hx Hl].
  apply negb_true_iff in Hx.
  cbn [performs fold_left].
  destruct (IH (perform getTextSize x st) Hl) as [IH1 IH2].
  destruct (perform_between_requests getTextSize x st Hx) as [H1 H2].
  unfold performs in *. split; congruence.
Qed.

(** X15. A session through the routes: when [/start] and, after any loop
    iterations and subscriber turns but no other [/start] or [/stop],
    [/stop] both reach the store (whose session counter is not negative),
    [/stop] answers OK, capturing is off, there is no current session, and
    the session that [/start] created is completed, stamped with the two
    request times and carrying the sums of the log rows written for it in
    between. *)
Theorem session_through_routes
  (getTextSize : Label -> Z * Z) (env1 env2 : Env) (l : list Activity)
  (pc : CapturePc) (s : App) :
  db_raises env1 = false ->
  db_raises env2 = false ->
  0 <= DB.sessions_seq (db s) ->
  forallb (fun x => negb (is_session_request x)) l = true ->
  let sid := fst (DB.start_session (db_now env1) (db s)) in
  let s1 := snd (start env1 s) in
  let s2 := snd (performs getTextSize l (pc, s1)) in
  let r := stop env2 s2 in
  fst r = Val "OK"%string
  /\ capturing (snd r) = false
  /\ current_session_id (snd r) = None
  /\ DB.session sid (db (snd r))
     = Some (DB.mkSession sid (db_now env1) (Some (db_now env2))
               (total (map DB.fire_count (DB.logs_of sid (db (snd r)))))
               (total (map DB.smoke_count (DB.logs_of sid (db (snd r)))))
               "completed").
Proof.
  intros Hdb1 Hdb2 Hseq Hl. cbv zeta.
  rewrite (start_ok env1 s Hdb1). cbn [snd].
  pose proof (session_after_start (db_now env1) (db s)) as Hnew.
  pose proof (next_rowid_above (DB.sessions_seq (db s))
                (map DB.id (DB.detection_sessions (db s)))) as [Hpos _].
  change (DB.next_rowid (DB.sessions_seq (db s))
            (map DB.id (DB.detection_sessions (db s))))
    with (fst (DB.start_session (db_now env1) (db s))) in Hpos.
  destruct (DB.start_session (db_now env1) (db s)) as [sid d1].
  destruct Hnew as [Hrow _]. cbn [fst snd] in *.
  set (s1 := mkApp true _ _ _ _ _ d1).
  destruct (performs_between_requests getTextSize l (pc, s1) Hl) as [Hcur Hses].
  set (s2 := snd (performs getTextSize l (pc, s1))) in *.
  change (current_session_id (snd (pc, s1))) with (Some sid) in Hcur.
  change (db (snd (pc, s1))) with d1 in Hses.
  rewrite stop_eq, Hcur.
  assert (Hnz : (sid =? 0) = false) by (apply Z.eqb_neq; lia).
  rewrite Hnz, Hdb2. cbn [fst snd capturing current_session_id db].
  repeat (split; [reflexivity|]).
  unfold DB.session, DB.end_session. cbn [DB.detection_sessions].
  rewrite find_close_row, Hses.
  unfold DB.session in Hrow. change (db s1) with d1 in Hrow. rewrite Hrow.
  cbn [option_map]. unfold DB.close_row. cbn [DB.id DB.start_time].
  rewrite Z.eqb_refl, !py_or0_sql_sum. reflexivity.
Qed.

Lemma session_through_routes_witness :
  let ok := fun t => mkEnv t t false in
  let l :=
    [ Core (DoCapture (mkCamera true (ReadFrame (camera_frame 1))));
      Core (DoCapture (mkCamera true (ReadFrame (camera_frame 2))));
      Core (DoGenerate (ok 1001) (Val [sample_box 0; sample_box 0]));
      Subscribe;
      Core (DoGenerate (ok 1002) (Val [sample_box 3])) ] in
  let s1 := snd (start (ok 1000) (initial 0 DB.init_db)) in
  let s2 := snd (performs sample_text_size l (Inner 0, s1)) in
  DB.session 1 (db (snd (stop (ok 1003) s2)))
  = Some (DB.mkSession 1 1000 (Some 1003) 2 1 "completed").
Proof.
  intros ok l s1 s2.
  destruct (session_through_routes sample_text_size (ok 1000) (ok 1003) l
              (Inner 0) (initial 0 DB.init_db) eq_refl eq_refl)
    as (_ & _ & _ & H); [cbn; lia | reflexivity |].
  exact H.
Defined.

(** X16. A repeated [/stop] is harmless: after a [/stop] that returned, a
    second [/stop] makes no call into the store (so it cannot fail, and
    nothing is closed twice), answers OK and only refreshes the snapshot's
    timestamp. *)
Theorem second_stop_leaves_store_alone (env1 env2 : Env) (s : App) (r1 : string) :
  fst (stop env1 s) = Val r1 ->
  stop env2 (snd (stop env1 s))
  = (Val "OK"%string,
     set_current_detections (mkSnapshot 0 0 (now env2)) (snd (stop env1 s))).
Proof.
  rewrite (stop_eq env1 s).
  destruct (current_session_id s) as [v|] eqn:Es;
    [destruct (v =? 0) eqn:Ev; [|destruct (db_raises env1)]|];
    cbn [fst snd]; intros H; try discriminate;
    rewrite stop_eq; cbn [current_session_id]; try rewrite Ev; reflexivity.
Qed.

Lemma second_stop_leaves_store_alone_witness :
  let s := watching (Some 1) [] one_session in
  let s1 := snd (stop (mkEnv 1001 1002 false) s) in
  stop (mkEnv 1003 1004 true) s1
  = (Val "OK"%string, set_current_detections (mkSnapshot 0 0 1003) s1).
Proof.
  intros s s1.
  exact (second_stop_leaves_store_alone (mkEnv 1001 1002 false)
           (mkEnv 1003 1004 true) s "OK" eq_refl).
Defined.

(** ** db.py: closing twice, unknown ids, keys *)

Lemma close_row_twice (sid t1 t2 tf ts : Z) (r : DB.SessionRow) :
  DB.close_row sid t2 tf ts (DB.close_row sid t1 tf ts r)
  = DB.close_row sid t2 tf ts r.
Proof.
  unfold DB.close_row. destruct (DB.id r =? sid) eqn:E; cbn [DB.id];
    rewrite E; reflexivity.
Qed.

(** X17. Closing a session twice is the same as closing it once at the later
    time: the second [end_session] overwrites end_time and writes the same
    totals again, and rows of other sessions are not involved. *)
Theorem end_session_last_close_wins (sid t1 t2 : Z) (d : DB.t) :
  DB.end_session sid t2 (DB.end_session sid t1 d) = DB.end_session sid t2 d.
Proof.
  unfold DB.end_session, DB.logs_of.
  cbn [DB.detection_sessions DB.detection_logs DB.sessions_seq DB.logs_seq].
  rewrite map_map. f_equal. apply map_ext. intros r. apply close_row_twice.
Qed.




Lemma NoDup_snoc_fresh (ids : list Z) (seq : Z) :
  NoDup ids -> NoDup (ids ++ [DB.next_rowid seq ids]).
Proof.
  intros H. apply NoDup_app; [exact H | repeat constructor; intros [] |].
  intros i Hi [Heq | []].
  destruct (next_rowid_above seq ids) as [_ Hall].
  rewrite Forall_forall in Hall. specialize (Hall i Hi). lia.
Qed.

Lemma NoDup_map_filter {A : Type} (key : A -> Z) (p : A -> bool) (l : list A) :
  NoDup (map key l) -> NoDup (map key (filter p l)).
Proof.
  induction l as [|x l IH]; intros H; [constructor|].
  cbn [map filter] in *. inversion H as [|? ? Hx Hl]; subst.
  destruct (p x); [|auto]. cbn [map]. constructor; [|auto].
  intros Hin. apply Hx. rewrite in_map_iff in *.
  destruct Hin as [y [Hy Hin]]. exists y. split; [exact Hy|].
  apply filter_In in Hin. tauto.
Qed.

Lemma exec_keys_unique (c : Store.call) (d : Store.t) :
  keys_unique d -> keys_unique (Store.exec c d).
Proof.
  intros (Hs & Hl & Hd). unfold keys_unique.
  destruct c as [[now | sid now | sid f s a now] | ty n conf path now | c1 c2 c3];
    cbn [Store.exec Store.base Store.detections DB.exec DB.start_session
         DB.end_session DB.add_detection_log Store.add_detection
         Store.delete_old_records fst snd DB.detection_sessions
         DB.detection_logs].
  - rewrite map_app. cbn [map DB.id].
    split; [apply NoDup_snoc_fresh, Hs | auto].
  - rewrite map_map.
    rewrite (map_ext _ DB.id) by (intros row; apply close_row_id). auto.
  - rewrite map_app. cbn [map DB.log_id].
    split; [exact Hs|]. split; [apply NoDup_snoc_fresh, Hl | exact Hd].
  - rewrite map_app. cbn [map Store.detection_id].
    split; [exact Hs|]. split; [exact Hl | apply NoDup_snoc_fresh, Hd].
  - split; [|split]; apply NoDup_map_filter; assumption.
Qed.

(** X19. Primary keys stay unique: whatever calls are made into db.py
    (starting and ending sessions, appending logs and detections, deleting
    old records), no two rows of a table ever share an id. *)
Theorem primary_keys_stay_unique (cs : list Store.call) (d : Store.t) :
  keys_unique d -> keys_unique (Store.exec_all cs d).
Proof.
  revert d. induction cs as [|c cs IH]; intros d H; [exact H|].
  cbn [Store.exec_all fold_left]. apply IH, exec_keys_unique, H.
Qed.

Lemma primary_keys_stay_unique_witness :
  keys_unique
    (Store.exec_all
       [ Store.OnSessions (DB.StartSession 100);
         Store.OnSessions (DB.AddDetectionLog 1 2 0 true 110);
         Store.AddDetection "fire" 2 None None 110;
         Store.DeleteOldRecords 500 500 500;
         Store.OnSessions (DB.StartSession 600);
         Store.AddDetection "smoke" 1 None None 610 ]
       Store.init_db).
Proof.
  apply (primary_keys_stay_unique _ Store.init_db).
  repeat split; constructor.
Defined.

Lemma exec_seq_monotone (c : Store.call) (d : Store.t) :
  DB.sessions_seq (Store.base d) <= DB.sessions_seq (Store.base (Store.exec c d))
  /\ Store.detections_seq d <= Store.detections_seq (Store.exec c d).
Proof.
  destruct c as [[now | sid now | sid f s a now] | ty n conf path now | c1 c2 c3];
    cbn; try lia.
  - pose proof (next_rowid_above (DB.sessions_seq (Store.base d))
                  (map DB.id (DB.detection_sessions (Store.base d)))) as [H _].
    lia.
  - pose proof (next_rowid_above (Store.detections_seq d)
                  (map Store.detection_id (Store.detections d))) as [H _].
    lia.
Qed.

Lemma exec_all_seq_monotone (cs : list Store.call) (d : Store.t) :
  DB.sessions_seq (Store.base d)
  <= DB.sessions_seq (Store.base (Store.exec_all cs d))
  /\ Store.detections_seq d <= Store.detections_seq (Store.exec_all cs d).
Proof.
  revert d. induction cs as [|c cs IH]; intros d; [cbn; lia|].
  cbn [Store.exec_all fold_left].
  destruct (IH (Store.exec c d)) as [H1 H2].
  destruct (exec_seq_monotone c d) as [H3 H4].
  unfold Store.exec_all in *. lia.
Qed.

(** X20. Ids are never reused: the id that [start_session] (and likewise
    [add_detection]) returns is larger than every id the function returned
    before, also when the earlier rows have since been removed by
    [delete_old_records]. *)
Theorem ids_never_reused
  (d : Store.t) (cs : list Store.call) (now1 now2 : Z)
  (ty1 ty2 : string) (n1 n2 : Z) (conf1 conf2 : option Z)
  (path1 path2 : option string) :
  (let first := DB.start_session now1 (Store.base d) in
   let later :=
     Store.exec_all cs
       (Store.mk (snd first) (Store.detections d) (Store.detections_seq d)) in
   fst first < fst (DB.start_session now2 (Store.base later)))
  /\ (let first := Store.add_detection ty1 n1 conf1 path1 now1 d in
      let later := Store.exec_all cs (snd first) in
      fst first < fst (Store.add_detection ty2 n2 conf2 path2 now2 later)).
Proof.
  split; cbv zeta.
  - set (d1 := Store.mk _ _ _).
    destruct (exec_all_seq_monotone cs d1) as [H _].
    pose proof (next_rowid_above
                  (DB.sessions_seq (Store.base (Store.exec_all cs d1)))
                  (map DB.id (DB.detection_sessions
                                (Store.base (Store.exec_all cs d1)))))
      as [H2 _].
    cbn in *. lia.
  - set (d1 := snd (Store.add_detection ty1 n1 conf1 path1 now1 d)).
    destruct (exec_all_seq_monotone cs d1) as [_ H].
    pose proof (next_rowid_above
                  (Store.detections_seq (Store.exec_all cs d1))
                  (map Store.detection_id
                       (Store.detections (Store.exec_all cs d1))))
      as [H2 _].
    cbn in *. lia.
Qed.

(** ** db.py: [delete_old_records] *)

Lemma in_old_session_iff (cutoff : Z) (sessions : list DB.SessionRow)
  (l : DB.LogRow) :
  Store.in_old_session cutoff sessions l = true
  <-> exists r,
        In r sessions /\ DB.start_time r < cutoff /\ DB.id r = DB.session_id l.
Proof.
  unfold Store.in_old_session. rewrite existsb_exists.
  split; intros [r [Hin H]]; exists r; (split; [exact Hin|]).
  - apply andb_prop in H. destruct H as [H1 H2].
    apply Z.ltb_lt in H1. apply Z.eqb_eq in H2. auto.
  - destruct H as [H1 H2]. apply andb_true_intro.
    split; [apply Z.ltb_lt, H1 | apply Z.eqb_eq, H2].
Qed.

Lemma filter_within {A : Type} (p q : A -> bool) (l : list A) :
  (forall x, In x l -> p x = true -> q x = true) ->
  filter p (filter q l) = filter p l.
Proof.
  induction l as [|x l IH]; intros H; [reflexivity|].
  cbn [filter].
  assert (IH' : filter p (filter q l) = filter p l)
    by (apply IH; intros y Hy; apply H; right; exact Hy).
  destruct (q x) eqn:Eq; cbn [filter].
  - rewrite IH'. reflexivity.
  - destruct (p x) eqn:Ep; [|exact IH'].
    rewrite (H x (or_introl eq_refl) Ep) in Eq. discriminate.
Qed.

Lemma filter_without {A : Type} (p q : A -> bool) (l : list A) :
  (forall x, In x l -> p x = true -> q x = false) ->
  filter p (filter q l) = [].
Proof.
  induction l as [|x l IH]; intros H; [reflexivity|].
  cbn [filter].
  assert (IH' : filter p (filter q l) = [])
    by (apply IH; intros y Hy; apply H; right; exact Hy).
  destruct (q x) eqn:Eq; cbn [filter]; [|exact IH'].
  destruct (p x) eqn:Ep; [|exact IH'].
  rewrite (H x (or_introl eq_refl) Ep) in Eq. discriminate.
Qed.

Lemma same_key_same_row (rows : list DB.SessionRow) (r r' : DB.SessionRow) :
  NoDup (map DB.id rows) ->
  In r rows -> In r' rows -> DB.id r = DB.id r' -> r = r'.
Proof.
  induction rows as [|x rows IH]; intros Hnd Hr Hr' Hid; [contradiction|].
  cbn [map] in Hnd. inversion Hnd as [|? ? Hx Hrest]; subst.
  destruct Hr as [-> | Hr], Hr' as [-> | Hr']; auto.
  - exfalso. apply Hx. rewrite Hid. apply in_map, Hr'.
  - exfalso. apply Hx. rewrite <- Hid. apply in_map, Hr.
Qed.

(** X21. [delete_old_records], when its first two statements see the same
    cutoff: every session left started at or after the cutoff; a session
    that started at or after the cutoff is kept with all of its log rows
    (session ids being unique); a session that started before it is removed
    together with all of its log rows; log rows that named an existing
    session before still do afterwards; and every detection left is at or
    after the third statement's cutoff. *)
Theorem delete_old_records_effect (cutoff cutoff3 : Z) (d : Store.t) :
  NoDup (map DB.id (DB.detection_sessions (Store.base d))) ->
  references_sessions (Store.base d) ->
  let d' := snd (Store.delete_old_records cutoff cutoff cutoff3 d) in
  Forall (fun r => cutoff <= DB.start_time r)
         (DB.detection_sessions (Store.base d'))
  /\ (forall r,
        In r (DB.detection_sessions (Store.base d)) ->
        cutoff <= DB.start_time r ->
        In r (DB.detection_sessions (Store.base d'))
        /\ DB.logs_of (DB.id r) (Store.base d')
           = DB.logs_of (DB.id r) (Store.base d))
  /\ (forall r,
        In r (DB.detection_sessions (Store.base d)) ->
        DB.start_time r < cutoff ->
        ~ In r (DB.detection_sessions (Store.base d'))
        /\ DB.logs_of (DB.id r) (Store.base d') = [])
  /\ references_sessions (Store.base d')
  /\ Forall (fun r => cutoff3 <= Store.detection_timestamp r)
            (Store.detections d').
Proof.
  intros Hnd Href. cbv zeta.
  unfold Store.delete_old_records, references_sessions, DB.logs_of in *.
  cbn [snd Store.base Store.detections DB.detection_sessions DB.detection_logs].
  set (sessions := DB.detection_sessions (Store.base d)) in *.
  set (logs := DB.detection_logs (Store.base d)) in *.
  split; [|split; [|split; [|split]]].
  - apply Forall_forall. intros r Hr. apply filter_In in Hr.
    destruct Hr as [_ Hr]. apply negb_true_iff, Z.ltb_ge in Hr. exact Hr.
  - intros r Hr Hnew. split.
    + apply filter_In. split; [exact Hr|].
      apply negb_true_iff, Z.ltb_ge. exact Hnew.
    + apply filter_within. intros l _ Hl. apply Z.eqb_eq in Hl.
      apply negb_true_iff.
      destruct (Store.in_old_session cutoff sessions l) eqn:E; [|reflexivity].
      apply in_old_session_iff in E. destruct E as (r' & Hr' & Hold & Hid).
      assert (r' = r)
        by (apply (same_key_same_row sessions); auto; congruence).
      subst r'. lia.
  - intros r Hr Hold. split.
    + intros Hin. apply filter_In in Hin. destruct Hin as [_ Hin].
      apply negb_true_iff, Z.ltb_ge in Hin. lia.
    + apply filter_without. intros l _ Hl. apply Z.eqb_eq in Hl.
      apply negb_false_iff, in_old_session_iff.
      exists r. auto.
  - rewrite Forall_forall in *. intros l Hl. apply filter_In in Hl.
    destruct Hl as [Hl Hkeep]. apply negb_true_iff in Hkeep.
    specialize (Href l Hl). apply in_map_iff in Href.
    destruct Href as (r & Hid & Hr).
    apply in_map_iff. exists r. split; [exact Hid|].
    apply filter_In. split; [exact Hr|].
    apply negb_true_iff, Z.ltb_ge.
    destruct (Z.lt_ge_cases (DB.start_time r) cutoff) as [Hold | Hnew];
      [|exact Hnew].
    exfalso.
    assert (Hin : Store.in_old_session cutoff sessions l = true)
      by (apply in_old_session_iff; exists r; auto).
    congruence.
  - apply Forall_forall. intros r Hr. apply filter_In in Hr.
    destruct Hr as [_ Hr]. apply negb_true_iff, Z.ltb_ge in Hr. exact Hr.
Qed.

Lemma delete_old_records_effect_witness :
  let d :=
    Store.exec_all
      [ Store.OnSessions (DB.StartSession 100);
        Store.OnSessions (DB.AddDetectionLog 1 2 0 true 110);
        Store.OnSessions (DB.EndSession 1 200);
        Store.OnSessions (DB.StartSession 600);
        Store.OnSessions (DB.AddDetectionLog 2 0 1 true 610);
        Store.AddDetection "fire" 2 None None 110 ]
      Store.init_db in
  let d' := snd (Store.delete_old_records 500 500 500 d) in
  map DB.id (DB.detection_sessions (Store.base d')) = [2]
  /\ map DB.session_id (DB.detection_logs (Store.base d')) = [2]
  /\ references_sessions (Store.base d').
Proof.
  intros d d'.
  destruct (delete_old_records_effect 500 500 d) as (_ & _ & _ & Href & _).
  - cbn. constructor; [intros [H | []]; discriminate H|].
    constructor; [intros [] | constructor].
  - unfold references_sessions. cbn.
    constructor; [left; reflexivity|].
    constructor; [right; left; reflexivity | constructor].
  - split; [reflexivity|]. split; [reflexivity | exact Href].
Defined.

(** X22. The number [delete_old_records] returns counts only the rows
    removed from [detections] (the last of its three statements): it is the
    size of that table before minus its size after, and it is 0 when that
    table is empty, however many sessions and log rows were removed. *)
Theorem delete_old_records_counts_detections_only
  (cutoff1 cutoff2 cutoff3 : Z) (d : Store.t) :
  let r := Store.delete_old_records cutoff1 cutoff2 cutoff3 d in
  fst r
  = Z.of_nat (length (Store.detections d))
    - Z.of_nat (length (Store.detections (snd r)))
  /\ (Store.detections d = [] -> fst r = 0).
Proof.
  cbv zeta. unfold Store.delete_old_records. cbn [fst snd Store.detections].
  split.
  - pose proof (filter_length
                  (fun r => Store.detection_timestamp r <? cutoff3)
                  (Store.detections d)) as H.
    lia.
  - intros ->. reflexivity.
Qed.
